(** * TimeLapse: a shallow embedding of [timelapse.py]

    The development follows the layout of the Python module:
    - [Py]: the fragment of the Python runtime the module relies on
      (exceptions, [int(...)], [str(...)], [format(n, '0w')], string
      methods, true division on floats);
    - [World]: the external collaborators (directory listing, image
      loading, OCR, the operator at the keyboard, the shell);
    - the [TimeLapse] object and its methods, in source order;
    - the properties of the methods. *)

From Stdlib Require Import ZArith QArith List String Ascii Bool Lia.
From Stdlib Require Import Permutation Sorting.Sorted.
From Stdlib Require Import Floats.SpecFloat.
Import ListNotations.

Local Open Scope string_scope.
Local Open Scope list_scope.
Local Open Scope Z_scope.

(** ** Exceptions and fallible computations *)

Inductive exn : Type :=
| TypeError
| ValueError
| IndexError
| KeyError
| ZeroDivisionError
| OverflowError
| OSError
| EOFError.

Definition exn_eqb (a b : exn) : bool :=
  match a, b with
  | TypeError, TypeError | ValueError, ValueError | IndexError, IndexError
  | KeyError, KeyError | ZeroDivisionError, ZeroDivisionError
  | OverflowError, OverflowError | OSError, OSError | EOFError, EOFError => true
  | _, _ => false
  end.

Inductive result (A : Type) : Type :=
| Ok (a : A)
| Raise (e : exn).
Arguments Ok {A} a.
Arguments Raise {A} e.

Definition rbind {A B} (r : result A) (k : A -> result B) : result B :=
  match r with
  | Ok a => k a
  | Raise e => Raise e
  end.

Declare Scope py_scope.
Delimit Scope py_scope with py.
Notation "x <- c ;; k" := (rbind c (fun x => k))
  (at level 61, c at next level, right associativity) : py_scope.
Local Open Scope py_scope.

(** [d[key]] on a dictionary entry that may be absent. *)
Definition getitem {A} (o : option A) : result A :=
  match o with
  | Some a => Ok a
  | None => Raise KeyError
  end.

(** [for x in xs: body], stopping at the first exception. *)
Fixpoint mapM {A B} (f : A -> result B) (xs : list A) : result (list B) :=
  match xs with
  | [] => Ok []
  | x :: xs' => y <- f x ;; ys <- mapM f xs' ;; Ok (y :: ys)
  end.

(** ** Python strings and integers *)

Module Py.

(** *** [str.lower], [str.endswith], [str.split] (byte strings) *)

Definition lower_ascii (c : ascii) : ascii :=
  let n := N_of_ascii c in
  if ((65 <=? n) && (n <=? 90))%N then ascii_of_N (n + 32) else c.

Fixpoint lower (s : string) : string :=
  match s with
  | EmptyString => EmptyString
  | String c s' => String (lower_ascii c) (lower s')
  end.

Definition endswith1 (s suffix : string) : bool :=
  let ls := String.length s in
  let lx := String.length suffix in
  (lx <=? ls)%nat && String.eqb (substring (ls - lx) lx s) suffix.

(** [s.endswith(tuple)]: true when some member of the tuple is a suffix. *)
Definition endswith (s : string) (suffixes : list string) : bool :=
  existsb (endswith1 s) suffixes.

(** [s.split(sep)] for a non-empty separator: [cur] holds the characters
    of the field being read. *)
Fixpoint split_go (fuel : nat) (sep : string) (s : string) (cur : string)
  : list string :=
  match fuel with
  | O => [cur]
  | S fuel' =>
      match s with
      | EmptyString => [cur]
      | String c s' =>
          if prefix sep s
          then cur :: split_go fuel' sep
                        (substring (String.length sep)
                           (String.length s - String.length sep) s)
                        EmptyString
          else split_go fuel' sep s' (cur ++ String c EmptyString)%string
      end
  end.

Definition split (s sep : string) : list string :=
  split_go (S (String.length s)) sep s EmptyString.

(** [sep in s] *)
Fixpoint contains (sep s : string) : bool :=
  match s with
  | EmptyString => prefix sep s
  | String _ s' => prefix sep s || contains sep s'
  end.

(** [xs[i]] for a non-negative index. *)
Definition index {A} (xs : list A) (i : nat) : result A :=
  match nth_error xs i with
  | Some a => Ok a
  | None => Raise IndexError
  end.

(** *** [str(n)] for integers *)

Definition digit_char (d : Z) : ascii := ascii_of_N (48 + Z.to_N d).

Fixpoint digits_go (fuel : nat) (n : Z) (acc : string) : string :=
  match fuel with
  | O => acc
  | S fuel' =>
      let acc' := String (digit_char (n mod 10)) acc in
      if (n <? 10)%Z then acc' else digits_go fuel' (n / 10) acc'
  end.

(** Decimal digits of a non-negative integer. *)
Definition digits (n : Z) : string :=
  digits_go (S (Z.to_nat (Z.log2 n))) n EmptyString.

Definition str (n : Z) : string :=
  if (n <? 0)%Z then String "-" (digits (- n)) else digits n.

Fixpoint repeat_char (c : ascii) (n : nat) : string :=
  match n with
  | O => EmptyString
  | S n' => String c (repeat_char c n')
  end.

(** [format(n, '0' + str(w))]: the format specification is a zero flag
    followed by the minimum width; the sign, when there is one, comes
    before the padding. *)
Definition format0 (n : Z) (w : nat) : string :=
  if (n <? 0)%Z
  then let d := digits (- n) in
       String "-" (repeat_char "0" (w - 1 - String.length d) ++ d)%string
  else let d := digits n in
       (repeat_char "0" (w - String.length d) ++ d)%string.

(** *** [int(s)] for strings *)

(** The white space [int] skips around the digits of an ASCII string. *)
Definition is_space (c : ascii) : bool :=
  let n := N_of_ascii c in
  ((9 <=? n) && (n <=? 13) || (n =? 32))%N.

Definition is_digit (c : ascii) : bool :=
  let n := N_of_ascii c in ((48 <=? n) && (n <=? 57))%N.

Fixpoint lstrip (s : string) : string :=
  match s with
  | String c s' => if is_space c then lstrip s' else s
  | EmptyString => s
  end.

Fixpoint rev_string (s : string) (acc : string) : string :=
  match s with
  | EmptyString => acc
  | String c s' => rev_string s' (String c acc)
  end.

Definition strip (s : string) : string :=
  rev_string (lstrip (rev_string (lstrip s) EmptyString)) EmptyString.

(** Digits with single underscores between them; [prev] tells whether the
    previous character was a digit. *)
Fixpoint int_digits (s : string) (acc : Z) (prev : bool) : option Z :=
  match s with
  | EmptyString => if prev then Some acc else None
  | String c s' =>
      if is_digit c
      then int_digits s' (10 * acc + (Z.of_N (N_of_ascii c) - 48)) true
      else if (N_of_ascii c =? 95)%N && prev
           then int_digits s' acc false
           else None
  end.

Definition int_of_str (s : string) : result Z :=
  let body (t : string) :=
    match t with
    | String c _ => if is_digit c then int_digits t 0 false else None
    | EmptyString => None
    end in
  let r :=
    match strip s with
    | String "-" t => option_map Z.opp (body t)
    | String "+" t => body t
    | t => body t
    end in
  match r with
  | Some z => Ok z
  | None => Raise ValueError
  end.

End Py.

(** ** Python numbers

    The module mixes [int] and [float]: [float(...)] conversions, true
    division, and arithmetic between an [int] and a [float], which
    converts the [int] first.  The arithmetic of [float] is kept behind
    an interface; its implementation [binary64] is IEEE 754 double
    precision as CPython executes it (the specification of [SpecFloat]
    at precision 53). *)

Class PyFloat (F : Type) : Type := {
  (** [float(n)]; [OverflowError] when [n] is out of range *)
  float_of_int : Z -> result F;
  fadd : F -> F -> F;
  fsub : F -> F -> F;
  fmul : F -> F -> F;
  (** [x / y]; [ZeroDivisionError] when [y] is zero *)
  fdiv : F -> F -> result F
}.

Module B64.
Definition prec : Z := 53.
Definition emax : Z := 1024.

(** The double nearest to an integer (ties to even). *)
Definition exact (n : Z) : spec_float := binary_normalize prec emax n 0 false.

(** A right-shift record without pending round or sticky bit. *)
Definition rec0 (m : Z) : shr_record := Build_shr_record m false false.

Definition of_int (n : Z) : result spec_float :=
  match exact n with
  | S754_infinity _ => Raise OverflowError
  | f => Ok f
  end.

Definition div (x y : spec_float) : result spec_float :=
  match y with
  | S754_zero _ => Raise ZeroDivisionError
  | _ => Ok (SFdiv prec emax x y)
  end.

(** The rational value of a finite float. *)
Definition to_Q (x : spec_float) : option Q :=
  match x with
  | S754_zero _ => Some 0%Q
  | S754_finite s m e =>
      let v := match e with
               | Zpos p => inject_Z (Zpos m * 2 ^ Zpos p)
               | Z0 => inject_Z (Zpos m)
               | Zneg p => Qmake (Zpos m) (2 ^ p)
               end in
      Some (if s then Qopp v else v)
  | _ => None
  end.
End B64.

#[export] Instance binary64 : PyFloat spec_float := {
  float_of_int := B64.of_int;
  fadd := SFadd B64.prec B64.emax;
  fsub := SFsub B64.prec B64.emax;
  fmul := SFmul B64.prec B64.emax;
  fdiv := B64.div
}.

Section Numbers.
Context {F : Type} `{PyFloat F}.

(** A Python number: an [int] or a [float]. *)
Inductive num : Type :=
| NInt (n : Z)
| NFloat (x : F).

(** The conversion applied to the operands of mixed arithmetic. *)
Definition as_float (a : num) : result F :=
  match a with
  | NInt n => float_of_int n
  | NFloat x => Ok x
  end.

Definition num_arith (zop : Z -> Z -> Z) (fop : F -> F -> F)
           (a b : num) : result num :=
  match a, b with
  | NInt m, NInt n => Ok (NInt (zop m n))
  | _, _ => x <- as_float a ;; y <- as_float b ;; Ok (NFloat (fop x y))
  end.

Definition num_add := num_arith Z.add fadd.
Definition num_sub := num_arith Z.sub fsub.
Definition num_mul := num_arith Z.mul fmul.

(** [a / b].  Between two [int]s CPython rounds the exact quotient once;
    for operands below 2^53 that is the quotient of the two converted
    operands, which is what is computed here. *)
Definition num_truediv (a b : num) : result num :=
  x <- as_float a ;; y <- as_float b ;; q <- fdiv x y ;; Ok (NFloat q).
End Numbers.
Arguments num F : clear implicits.

(** ** The objects of the module *)

(** A colour is an English name or an RGBA tuple. *)
Inductive color : Type :=
| Named (name : string)
| RGBA (r g b a : Z).

Definition box : Type := (Z * Z * Z * Z)%type.

(** What the parser attribute may hold: [__init__] accepts any keyword
    override, so it need not be a function. *)
Inductive pyobj : Type :=
| PyNone
| PyInt (n : Z)
| PyStr (s : string)
| PyFunc (f : string -> result string).

(** [int(o)]: a function object (or [None]) is not a number. *)
Definition py_int (o : pyobj) : result Z :=
  match o with
  | PyInt n => Ok n
  | PyStr s => Py.int_of_str s
  | PyNone | PyFunc _ => Raise TypeError
  end.

(** The three documented orderings; [ORDER_NAME] is [None]. *)
Inductive order_mode : Type :=
| ORDER_NAME
| ORDER_CREATED
| ORDER_MODIFIED.

(** The value of a record's ['order'] entry: the file name, or a time
    stamp of the file system. *)
Inductive order_value : Type :=
| OName (s : string)
| OStamp (t : Q).

(** [a < b] between order values of one kind; a series never mixes the
    two kinds, because one mode produces all its keys. *)
Definition order_ltb (a b : order_value) : bool :=
  match a, b with
  | OName s, OName t => String.ltb s t
  | OStamp s, OStamp t => negb (Qle_bool t s)
  | _, _ => false
  end.

Section Objects.
Context {F : Type} `{PyFloat F}.

(** One call on an [ImageDraw] handle. *)
Inductive draw_op : Type :=
| Rectangle (xy : list (num F)) (fill outline : color)
| Line (xy : list (num F)) (fill : color) (width : Z)
| Ellipse (xy : list (num F)) (fill outline : color)
| Text (xy : list (num F)) (text font : string) (size : Z) (fill : color).

(** A PIL image: the file it was opened from, the crop applied to it,
    and what has been drawn on it since, oldest first. *)
Record Image : Type := {
  im_path : string;
  im_crop : option box;
  im_drawn : list draw_op
}.

Definition crop (im : Image) (b : box) : Image :=
  {| im_path := im_path im; im_crop := Some b; im_drawn := im_drawn im |}.

Definition draw (im : Image) (op : draw_op) : Image :=
  {| im_path := im_path im; im_crop := im_crop im;
     im_drawn := im_drawn im ++ [op] |}.

(** An entry of [image_series]: a dictionary with the keys
    ['file_name'], ['order'] and ['index'] from loading, ['image'] and
    ['temp'] from [process_image], ['temps'] from [process_images]. *)
Record image_record : Type := {
  file_name : string;
  order : order_value;
  index : Z;
  image : option Image;
  temp : option Z;
  temps : option (list Z)
}.

(** What the program does to the outside, in order. *)
Inductive event : Type :=
| EPrint (line : string)
| EShow (im : Image)
| EPrompt (prompt : string)
| ESave (path : string) (im : Image)
| ECopy (src dst : string)
| ESystem (command : string).

(** An effectful computation: the events it emitted, also when it ends
    in an exception, and its outcome. *)
Definition io (A : Type) : Type := (list event * result A)%type.

Definition ret {A} (a : A) : io A := ([], Ok a).
Definition emit (e : event) : io unit := ([e], Ok tt).
Definition lift {A} (r : result A) : io A := ([], r).

Definition bind {A B} (c : io A) (k : A -> io B) : io B :=
  match c with
  | (out, Ok a) => let '(out', r) := k a in (out ++ out', r)
  | (out, Raise e) => (out, Raise e)
  end.

(** The external collaborators. *)
Record World : Type := {
  (** [os.listdir] *)
  listdir : string -> result (list string);
  (** [os.path.getctime], [os.path.getmtime] *)
  getctime : string -> result Q;
  getmtime : string -> result Q;
  (** whether [Image.open] can read the file *)
  readable : string -> bool;
  (** [pytesseract.image_to_string] *)
  image_to_string : Image -> result string;
  (** the line [input()] returns while the image of that name is shown *)
  typed : string -> result string;
  (** whether [ImageFont.truetype] finds the font *)
  font_found : string -> bool;
  (** whether a file can be written at that path *)
  writable : string -> bool;
  (** the exit status [os.system] returns for a command *)
  system : string -> Z;
  (** the duration [process_images] measures and prints *)
  elapsed : string
}.

(** The [TimeLapse] object. *)
Record TimeLapse : Type := {
  images_per_second : Z;
  framerate : Z;
  ocr_binding_box : box;
  temperature_text_parser : pyobj;
  process_threads : option Z;
  images_directory : option string;
  save_directory : option string;
  grid_color : color;
  graph_bg_color : color;
  graph_border_color : color;
  line_color : color;
  tick_color : color;
  freezing_line_color : color;
  graph_label_font : string;
  graph_height : Z;
  graph_width : Z;
  padding : Z;
  graph_height_margin : Z;
  graph_width_margin : Z;
  ticker_width : Z;
  plot_point_size : option Z;
  plot_point_color : color;
  plot_point_outline : color;
  valid_file_extensions : list string;
  tl_order : order_mode;
  deg_min : option Z;
  deg_max : option Z;
  pixels_per_degree : num F;
  total_frames : Z;
  image_series : list image_record
}.
End Objects.
Arguments draw_op F : clear implicits.
Arguments Image F : clear implicits.
Arguments image_record F : clear implicits.
Arguments event F : clear implicits.
Arguments io F A : clear implicits.
Arguments World F : clear implicits.
Arguments TimeLapse F : clear implicits.

Notation "x <-- c ;;; k" := (bind c (fun x => k))
  (at level 61, c at next level, right associativity) : py_scope.
Notation "c ;;; k" := (bind c (fun _ => k))
  (at level 61, right associativity) : py_scope.

(** [os.path.join(a, b)] on a POSIX system. *)
Definition path_join (a : option string) (b : string) : result string :=
  match a with
  | None => Raise TypeError
  | Some a =>
      if prefix "/" b then Ok b
      else if (String.eqb a "" || Py.endswith1 a "/")%bool then Ok (a ++ b)%string
      else Ok (a ++ "/" ++ b)%string
  end.

(** The default parser: the footer holds two readings, Celsius then
    Fahrenheit; the second is returned, without its leading space. *)
Definition parse_temperature_text (input_text : string) : result string :=
  let degrees := Py.split input_text "°" in
  second <- Py.index degrees 1 ;;
  Py.index (Py.split second " ") 1.

Section Methods.
Context {F : Type} `{PyFloat F}.
Abbreviation TimeLapse := (TimeLapse F).
Abbreviation Image := (Image F).
Abbreviation image_record := (image_record F).
Abbreviation io := (io F).
Abbreviation num := (num F).

(** *** [__init__] without keyword overrides *)

Definition init : TimeLapse := {|
  images_per_second := 15;
  framerate := 25;
  ocr_binding_box := (0, 3174, 4412, 3308);
  temperature_text_parser := PyFunc parse_temperature_text;
  process_threads := None;
  images_directory := None;
  save_directory := None;
  grid_color := RGBA 255 255 255 150;
  graph_bg_color := RGBA 0 0 0 200;
  graph_border_color := Named "white";
  line_color := Named "white";
  tick_color := Named "white";
  freezing_line_color := RGBA 29 214 255 255;
  graph_label_font := "Courier New";
  graph_height := 650;
  graph_width := 4086;
  padding := 60;
  graph_height_margin := 75;
  graph_width_margin := 190;
  ticker_width := 20;
  plot_point_size := None;
  plot_point_color := Named "white";
  plot_point_outline := Named "black";
  valid_file_extensions := [".png"; ".jpg"; ".jpeg"];
  tl_order := ORDER_NAME;
  deg_min := None;
  deg_max := None;
  pixels_per_degree := NInt 1;
  total_frames := 1;
  image_series := []
|}.

(** Assignments to the computed attributes. *)
Definition set_computed (self : TimeLapse) (dmin dmax : option Z)
           (ppd : num) (frames : Z) (series : list image_record)
  : TimeLapse := {|
  images_per_second := images_per_second self;
  framerate := framerate self;
  ocr_binding_box := ocr_binding_box self;
  temperature_text_parser := temperature_text_parser self;
  process_threads := process_threads self;
  images_directory := images_directory self;
  save_directory := save_directory self;
  grid_color := grid_color self;
  graph_bg_color := graph_bg_color self;
  graph_border_color := graph_border_color self;
  line_color := line_color self;
  tick_color := tick_color self;
  freezing_line_color := freezing_line_color self;
  graph_label_font := graph_label_font self;
  graph_height := graph_height self;
  graph_width := graph_width self;
  padding := padding self;
  graph_height_margin := graph_height_margin self;
  graph_width_margin := graph_width_margin self;
  ticker_width := ticker_width self;
  plot_point_size := plot_point_size self;
  plot_point_color := plot_point_color self;
  plot_point_outline := plot_point_outline self;
  valid_file_extensions := valid_file_extensions self;
  tl_order := tl_order self;
  deg_min := dmin;
  deg_max := dmax;
  pixels_per_degree := ppd;
  total_frames := frames;
  image_series := series
|}.

Definition set_image_series (self : TimeLapse) (series : list image_record) :=
  set_computed self (deg_min self) (deg_max self) (pixels_per_degree self)
               (total_frames self) series.

Definition set_deg (self : TimeLapse) (dmin dmax : option Z) :=
  set_computed self dmin dmax (pixels_per_degree self) (total_frames self)
               (image_series self).

Definition set_pixels_per_degree (self : TimeLapse) (ppd : num) :=
  set_computed self (deg_min self) (deg_max self) ppd (total_frames self)
               (image_series self).

Definition set_total_frames (self : TimeLapse) (frames : Z) :=
  set_computed self (deg_min self) (deg_max self) (pixels_per_degree self)
               frames (image_series self).

(** [len(self.image_series)] *)
Definition len {A} (xs : list A) : Z := Z.of_nat (List.length xs).

(** [float(o)] of an attribute that may still be [None]. *)
Definition float_attr (o : option Z) : result F :=
  match o with
  | None => Raise TypeError
  | Some n => float_of_int n
  end.

(** *** Graph drawing functions *)

Definition compute_pixels_per_temp (self : TimeLapse) : result F :=
  hi <- float_attr (deg_max self) ;;
  lo <- float_attr (deg_min self) ;;
  let temp_range := fsub hi lo in
  y_axis_height <- float_of_int (graph_height self - padding self * 2) ;;
  fdiv y_axis_height temp_range.

Definition get_temp_y_point (self : TimeLapse) (temp : Z) : result num :=
  lo <- match deg_min self with Some n => Ok n | None => Raise TypeError end ;;
  scaled <- num_mul (NInt (temp - lo)) (pixels_per_degree self) ;;
  num_sub (NInt (graph_height_margin self + graph_height self - padding self))
          scaled.

Definition get_x_point (self : TimeLapse) (index : Z) : result num :=
  let x_axis_length := graph_width self - padding self * 2 in
  a <- float_of_int x_axis_length ;;
  b <- float_of_int (len (image_series self) - 1) ;;
  pixels_per_frame <- fdiv a b ;;
  step <- num_mul (NFloat pixels_per_frame) (NInt index) ;;
  num_add (NInt (graph_width_margin self + padding self)) step.

Definition draw_graph_borders (self : TimeLapse) (image : Image) : Image :=
  draw image
    (Rectangle [NInt (graph_width_margin self);
                NInt (graph_height_margin self);
                NInt (graph_width_margin self + graph_width self);
                NInt (graph_height_margin self + graph_height self)]
               (graph_bg_color self) (graph_border_color self)).

(** The tick marks of [draw_grid]: the [while] loop from [current_deg]
    up to [deg_max], [n] iterations left. *)
Fixpoint draw_ticks (self : TimeLapse) (n : nat) (current_deg : Z)
         (img : Image) : result Image :=
  match n with
  | O => Ok img
  | S n' =>
      img' <-
        (if current_deg mod 10 =? 0 then
           y_axis_point <- get_temp_y_point self current_deg ;;
           half <- num_truediv (NInt (ticker_width self)) (NInt 2) ;;
           x0 <- num_sub (NInt (graph_width_margin self + padding self)) half ;;
           x1 <- num_add (NInt (graph_width_margin self + padding self)) half ;;
           Ok (draw img (Line [x0; y_axis_point; x1; y_axis_point]
                              (tick_color self) 2))
         else Ok img) ;;
      draw_ticks self n' (current_deg + 1) img'
  end.

Definition draw_grid (w : World F) (self : TimeLapse) (image : Image)
  : result Image :=
  let x0 := graph_width_margin self + padding self in
  let y0 := graph_height_margin self + graph_height self - padding self in
  let img := draw image
    (Line [NInt x0; NInt y0; NInt x0;
           NInt (graph_height_margin self + padding self)]
          (grid_color self) 2) in
  let img := draw img
    (Line [NInt x0; NInt y0;
           NInt (graph_width_margin self + graph_width self - padding self);
           NInt y0]
          (grid_color self) 2) in
  lo <- match deg_min self with Some n => Ok n | None => Raise TypeError end ;;
  hi <- match deg_max self with Some n => Ok n | None => Raise TypeError end ;;
  img <- draw_ticks self (Z.to_nat (hi - lo + 1)) lo img ;;
  img <-
    (if (lo <=? 32) && (32 <=? hi) then
       freezing_line <- get_temp_y_point self 32 ;;
       Ok (draw img
             (Line [NInt x0; freezing_line;
                    NInt (graph_width_margin self + graph_width self
                          - padding self);
                    freezing_line]
                   (freezing_line_color self) 1))
     else Ok img) ;;
  _ <- (if font_found w (graph_label_font self) then Ok tt
        else Raise OSError) ;;
  half <- num_truediv (NInt (padding self)) (NInt 2) ;;
  ylo <- (t <- num_sub (NInt (graph_height_margin self + graph_height self))
                       half ;;
          num_sub t (NInt 20)) ;;
  yhi <- (t <- num_add (NInt (graph_height_margin self)) half ;;
          num_sub t (NInt 20)) ;;
  let img := draw img
    (Text [NInt (graph_width_margin self + 20); ylo]
          (Py.str lo ++ "°")%string (graph_label_font self) 40 (grid_color self)) in
  let img := draw img
    (Text [NInt (graph_width_margin self + 20); yhi]
          (Py.str hi ++ "°")%string (graph_label_font self) 40 (grid_color self)) in
  Ok img.

(** The lines of a given width among drawing operations. *)
Definition is_line (width : Z) (op : draw_op F) : Prop :=
  exists xy fill, op = Line xy fill width.

(** The temperatures from [lo] to [hi] that get a tick mark. *)
Definition tick_degrees (lo hi : Z) : list Z :=
  filter (fun d => d mod 10 =? 0)
         (map (fun j => lo + Z.of_nat j) (seq 0 (Z.to_nat (hi - lo + 1)))).

(** Whether [plot_point_size] is truthy. *)
Definition truthy (o : option Z) : bool :=
  match o with
  | Some n => negb (n =? 0)
  | None => false
  end.

(** The segments of the polyline through [points], continuing from
    [last] when there is a previous point. *)
Fixpoint segments (last : option (num * num)) (points : list (num * num))
  : list (draw_op F) :=
  match points with
  | [] => []
  | (x, y) :: rest =>
      match last with
      | Some (lx, ly) => [Line [lx; ly; x; y] (Named "white") 2]
      | None => []
      end ++ segments (Some (x, y)) rest
  end.

(** The loop of [add_temps] over [enumerate(temperature_points)], from
    position [index] on. *)
Fixpoint add_temps_loop (self : TimeLapse) (points : list Z) (index : Z)
         (last_point : option (num * num)) (img : Image) : result Image :=
  match points with
  | [] => Ok img
  | point :: rest =>
      y <- get_temp_y_point self point ;;
      x <- get_x_point self index ;;
      img1 <-
        (if truthy (plot_point_size self) then
           size <- getitem (plot_point_size self) ;;
           half <- num_truediv (NInt size) (NInt 2) ;;
           x0 <- num_sub x half ;; y0 <- num_sub y half ;;
           x1 <- num_add x half ;; y1 <- num_add y half ;;
           Ok (draw img (Ellipse [x0; y0; x1; y1] (plot_point_color self)
                                 (plot_point_outline self)))
         else Ok img) ;;
      let img2 :=
        match last_point with
        | Some (lx, ly) => draw img1 (Line [lx; ly; x; y] (Named "white") 2)
        | None => img1
        end in
      add_temps_loop self rest (index + 1) (Some (x, y)) img2
  end.

Definition add_temps (self : TimeLapse) (image_obj : image_record)
           (temperature_points : list Z) : result Image :=
  img <- getitem (image image_obj) ;;
  add_temps_loop self temperature_points 0 None img.

Definition set_image (r : image_record) (im : Image) : image_record :=
  {| file_name := file_name r; order := order r; index := index r;
     image := Some im; temp := temp r; temps := temps r |}.

Definition set_temps (r : image_record) (ts : list Z) : image_record :=
  {| file_name := file_name r; order := order r; index := index r;
     image := image r; temp := temp r; temps := Some ts |}.

Definition draw_graph (w : World F) (self : TimeLapse)
           (image_obj : image_record) : result image_record :=
  im <- getitem (image image_obj) ;;
  let image_obj := set_image image_obj (draw_graph_borders self im) in
  im <- getitem (image image_obj) ;;
  im <- draw_grid w self im ;;
  let image_obj := set_image image_obj im in
  ts <- getitem (temps image_obj) ;;
  im <- add_temps self image_obj ts ;;
  Ok (set_image image_obj im).

(** *** Loading *)

(** [sorted(file_list, key=...)]: a stable sort that compares with [<]. *)
Fixpoint insert_by_order (x : image_record) (l : list image_record)
  : list image_record :=
  match l with
  | [] => [x]
  | y :: l' =>
      if order_ltb (order y) (order x) then y :: insert_by_order x l'
      else x :: l
  end.

Fixpoint sorted (l : list image_record) : list image_record :=
  match l with
  | [] => []
  | x :: l' => insert_by_order x (sorted l')
  end.

(** [x] may stand before [y] in a sorted series: [y < x] does not hold. *)
Definition in_order (x y : image_record) : Prop :=
  order_ltb (order y) (order x) = false.

(** [for index, img in enumerate(series, start): img['index'] = index] *)
Fixpoint set_indices (start : Z) (series : list image_record)
  : list image_record :=
  match series with
  | [] => []
  | img :: rest =>
      {| file_name := file_name img; order := order img; index := start;
         image := image img; temp := temp img; temps := temps img |}
      :: set_indices (start + 1) rest
  end.

(** The ordering value of one file. *)
Definition order_of (w : World F) (self : TimeLapse) (filename : string)
  : result order_value :=
  match tl_order self with
  | ORDER_NAME => Ok (OName filename)
  | ORDER_CREATED =>
      path <- path_join (images_directory self) filename ;;
      t <- getctime w path ;; Ok (OStamp t)
  | ORDER_MODIFIED =>
      path <- path_join (images_directory self) filename ;;
      t <- getmtime w path ;; Ok (OStamp t)
  end.

(** The first loop of [load_images]. *)
Fixpoint collect (w : World F) (self : TimeLapse) (names : list string)
  : result (list image_record) :=
  match names with
  | [] => Ok []
  | filename :: rest =>
      if Py.endswith (Py.lower filename) (valid_file_extensions self) then
        order_value <- order_of w self filename ;;
        file_list <- collect w self rest ;;
        (* the ['index'] key is absent until [set_indices] assigns it *)
        Ok ({| file_name := filename; order := order_value; index := 0;
               image := None; temp := None; temps := None |} :: file_list)
      else collect w self rest
  end.

(** [os.listdir(None)] lists the current directory. *)
Definition load_images (w : World F) (self : TimeLapse)
  : TimeLapse * io unit :=
  let dir := match images_directory self with Some d => d | None => "." end in
  match (names <- listdir w dir ;; collect w self names) with
  | Raise e => (self, lift (Raise e))
  | Ok file_list =>
      let series := set_indices 1 (sorted file_list) in
      (set_image_series self series,
       emit (EPrint ("Loaded " ++ Py.str (len series) ++ " files")%string))
  end.
(** *** Temperature extraction *)

(** [Image.open] *)
Definition image_open (w : World F) (path : string) : result Image :=
  if readable w path
  then Ok {| im_path := path; im_crop := None; im_drawn := [] |}
  else Raise OSError.

(** The dictionary both branches of [process_image] return. *)
Definition processed (im : Image) (file_meta : image_record) (t : Z)
  : image_record :=
  {| image := Some im;
     file_name := file_name file_meta;
     temp := Some t;
     order := order file_meta;
     index := index file_meta;
     temps := None |}.

Definition process_image (w : World F) (self : TimeLapse)
           (file_meta : image_record) : io image_record :=
  path <-- lift (path_join (images_directory self) (file_name file_meta)) ;;;
  im <-- lift (image_open w path) ;;;
  let timestamp_border := crop im (ocr_binding_box self) in
  text <-- lift (image_to_string w timestamp_border) ;;;
  match py_int (temperature_text_parser self) with
  | Ok t => ret (processed im file_meta t)
  | Raise IndexError | Raise ValueError =>
      emit (EPrint "!! Failed to extract temperature.") ;;;
      emit (EShow im) ;;;
      emit (EPrompt "Enter temperature seen in image:") ;;;
      line <-- lift (typed w (file_name file_meta)) ;;;
      t <-- lift (Py.int_of_str line) ;;;
      ret (processed im file_meta t)
  | Raise e => lift (Raise e)
  end.

(** [Pool.map(f, xs)].  The workers finish their tasks in an order the
    caller does not control: [schedule] lists the positions of the tasks
    that finish early, and the tasks complete in the order
    [completion_order], the others after those; every task appears in
    it once, and every permutation of the positions is the completion
    order of some schedule (itself).  Each result is
    filed under the position of its argument, and the list handed back
    is read off by position.  The first task to fail ends the call with
    its exception.  The number of workers, [process_threads], is taken
    to be one the pool accepts ([None], the default, or a positive
    number): it has no part in the list handed back. *)
Definition completion_order (n : nat) (schedule : list nat) : list nat :=
  let early := nodup Nat.eq_dec (filter (fun i => (i <? n)%nat) schedule) in
  early ++ filter (fun i => negb (existsb (Nat.eqb i) early)) (seq 0 n).

Fixpoint run_tasks {A B} (f : A -> io B) (xs : list A) (order : list nat)
  : io (list (nat * B)) :=
  match order with
  | [] => ret []
  | i :: rest =>
      match nth_error xs i with
      | None => run_tasks f xs rest
      | Some x =>
          y <-- f x ;;;
          done <-- run_tasks f xs rest ;;;
          ret ((i, y) :: done)
      end
  end.

Definition filed {B} (done : list (nat * B)) (i : nat) : option B :=
  option_map snd (find (fun d => (fst d =? i)%nat) done).

Fixpoint read_off {B} (done : list (nat * B)) (positions : list nat)
  : list B :=
  match positions with
  | [] => []
  | i :: rest =>
      match filed done i with
      | Some y => y :: read_off done rest
      | None => read_off done rest
      end
  end.

Definition pool_map {A B} (schedule : list nat) (f : A -> io B)
           (xs : list A) : io (list B) :=
  done <-- run_tasks f xs (completion_order (List.length xs) schedule) ;;;
  ret (read_off done (seq 0 (List.length xs))).

(** The outcome of one task, without its events. *)
Definition outcome {A B} (f : A -> io B) (x : A) : result B := snd (f x).

(** The temperatures of a series, in order. *)
Definition temperatures (series : list image_record) : list Z :=
  flat_map (fun img => match temp img with Some t => [t] | None => [] end)
           series.

(** The second loop of [process_images]: the running maximum and
    minimum and the running list of temperatures; the records already
    visited keep their ['temps'] when a later one fails. *)
Fixpoint aggregate (dmax dmin : option Z) (current_temps : list Z)
         (series : list image_record)
  : option Z * option Z * list image_record * result unit :=
  match series with
  | [] => (dmax, dmin, [], Ok tt)
  | img :: rest =>
      match temp img with
      | None => (dmax, dmin, series, Raise KeyError)
      | Some t =>
          let dmax :=
            match dmax with
            | None => Some t
            | Some m => if t >? m then Some t else Some m
            end in
          let dmin :=
            match dmin with
            | None => Some t
            | Some m => if t <? m then Some t else Some m
            end in
          let current_temps := current_temps ++ [t] in
          let img := set_temps img current_temps in
          let '(dmax', dmin', rest', r) :=
            aggregate dmax dmin current_temps rest in
          (dmax', dmin', img :: rest', r)
      end
  end.

Definition tab : string := String (ascii_of_N 9) EmptyString.

(** [str(self.deg_max)] in a [print]. *)
Definition str_attr (o : option Z) : string :=
  match o with
  | Some n => Py.str n
  | None => "None"
  end.

Definition process_images (w : World F) (schedule : list nat)
           (self : TimeLapse) : TimeLapse * io unit :=
  let start := [EPrint "Beginning processing of images..."] in
  match pool_map schedule (process_image w self) (image_series self) with
  | (out, Raise e) => (self, (start ++ out, Raise e))
  | (out, Ok series) =>
      let self := set_image_series self series in
      let '(dmax, dmin, series, r) :=
        aggregate (deg_max self) (deg_min self) [] (image_series self) in
      let self := set_image_series (set_deg self dmin dmax) series in
      match r with
      | Raise e => (self, (start ++ out, Raise e))
      | Ok _ =>
          match compute_pixels_per_temp self with
          | Raise e => (self, (start ++ out, Raise e))
          | Ok ppd =>
              let self := set_pixels_per_degree self (NFloat ppd) in
              let self := set_total_frames self (len (image_series self)) in
              (self,
               (start ++ out ++
                [EPrint (tab ++ "...completed [ in " ++ elapsed w ++ " ]")%string;
                 EPrint "Determined temperature ranges:";
                 EPrint (tab ++ ">> Max Temp: " ++ str_attr (deg_max self))%string;
                 EPrint (tab ++ ">> Min Temp: " ++ str_attr (deg_min self))%string],
                Ok tt))
          end
      end
  end.
(** *** Rendering *)

(** ['TIMELAPSE' + format(index, '0' + str(max_digits)) + '.JPG'] *)
Definition new_filename (index : Z) (max_digits : nat) : string :=
  ("TIMELAPSE" ++ Py.format0 index max_digits ++ ".JPG")%string.

(** [len(str(len(self.image_series)))] *)
Definition max_digits (self : TimeLapse) : nat :=
  String.length (Py.str (len (image_series self))).

(** [image.save(path)] and [shutil.copyfile(src, dst)] *)
Definition save (w : World F) (path : string) (im : Image) : io unit :=
  if writable w path then emit (ESave path im) else lift (Raise OSError).

Definition copyfile (w : World F) (src dst : string) : io unit :=
  if readable w src && writable w dst then emit (ECopy src dst)
  else lift (Raise OSError).

(** The loop of the [add_graph] branch; it hands back the records with
    what was drawn on them, the unvisited ones untouched.  What
    [draw_graph] had drawn on a picture before it raised is not kept:
    the record it failed on is handed back as it was. *)
Fixpoint render_graphs (w : World F) (self : TimeLapse) (digits : nat)
         (series : list image_record) : list image_record * io unit :=
  match series with
  | [] => ([], ret tt)
  | img :: rest =>
      match draw_graph w self img with
      | Raise e => (series, lift (Raise e))
      | Ok image_obj =>
          let name := new_filename (index image_obj) digits in
          let step :=
            im <-- lift (getitem (image image_obj)) ;;;
            path <-- lift (path_join (save_directory self) name) ;;;
            save w path im in
          match step with
          | (out, Raise e) => (image_obj :: rest, (out, Raise e))
          | (out, Ok _) =>
              let '(rest', (out', r)) := render_graphs w self digits rest in
              (image_obj :: rest', (out ++ out', r))
          end
      end
  end.

(** The loop of the plain-copy branch over [enumerate(series, start)]. *)
Fixpoint render_copies (w : World F) (self : TimeLapse) (digits : nat)
         (index : Z) (series : list image_record) : io unit :=
  match series with
  | [] => ret tt
  | image_obj :: rest =>
      let name := new_filename index digits in
      src <-- lift (path_join (images_directory self) (file_name image_obj)) ;;;
      dst <-- lift (path_join (save_directory self) name) ;;;
      copyfile w src dst ;;;
      render_copies w self digits (index + 1) rest
  end.

Definition render_images (w : World F) (add_graph : bool) (self : TimeLapse)
  : TimeLapse * io unit :=
  let digits := max_digits self in
  if add_graph then
    let '(series, (out, r)) :=
      render_graphs w self digits (image_series self) in
    (set_image_series self series,
     (EPrint "Generating graphs on all frames..." :: out, r))
  else
    (self, render_copies w self digits 1 (image_series self)).

(** The command line [render_video] hands to the shell. *)
Definition ffmpeg_command (self : TimeLapse) (save_as : string)
  : result string :=
  dir <- match save_directory self with
         | Some d => Ok d
         | None => Raise TypeError
         end ;;
  Ok ("cd " ++ dir ++ " && ffmpeg -f image2 -framerate "
      ++ Py.str (framerate self)
      ++ " -pattern_type sequence -start_number 1 -r "
      ++ Py.str (images_per_second self)
      ++ " -i TIMELAPSE%0"
      ++ Py.str (Z.of_nat (String.length (Py.str (len (image_series self)))))
      ++ "d.JPG " ++ save_as)%string.

(** [os.system(...)] is called as a statement: its return value, the
    exit status, is dropped. *)
Definition render_video (w : World F) (save_as : string) (self : TimeLapse)
  : io unit :=
  emit (EPrint "Calling ffmpeg...") ;;;
  command <-- lift (ffmpeg_command self save_as) ;;;
  emit (ESystem command) ;;;
  let _status := system w command in
  emit (EPrint "Done.").

(** Sequencing of methods that update the object. *)
Definition and_then (c : TimeLapse * io unit)
           (k : TimeLapse -> TimeLapse * io unit) : TimeLapse * io unit :=
  match c with
  | (self, (out, Ok _)) =>
      let '(self', (out', r)) := k self in (self', (out ++ out', r))
  | (self, (out, Raise e)) => (self, (out, Raise e))
  end.

Definition make_video (w : World F) (schedule : list nat) (with_graph : bool)
           (output_file : string) (self : TimeLapse) : TimeLapse * io unit :=
  and_then (load_images w self) (fun self =>
  and_then (if with_graph then process_images w schedule self
            else (self, ret tt)) (fun self =>
  and_then (render_images w with_graph self) (fun self =>
  (self, render_video w output_file self)))).
End Methods.

(** ** A run of the example script

    [example.py] builds [TimeLapse(images_directory='photos',
    save_directory='save', images_per_second=3)] and calls [make_video].
    The world below has three pictures in [photos]; the operator, shown a
    picture, types the temperature printed on it. *)

Module Demo.
Definition F : Type := spec_float.

(** Keyword overrides of [__init__]. *)
Definition configure (self : TimeLapse F) (parser : pyobj)
           (images save : option string) (ips : Z) : TimeLapse F := {|
  images_per_second := ips;
  framerate := framerate self;
  ocr_binding_box := ocr_binding_box self;
  temperature_text_parser := parser;
  process_threads := process_threads self;
  images_directory := images;
  save_directory := save;
  grid_color := grid_color self;
  graph_bg_color := graph_bg_color self;
  graph_border_color := graph_border_color self;
  line_color := line_color self;
  tick_color := tick_color self;
  freezing_line_color := freezing_line_color self;
  graph_label_font := graph_label_font self;
  graph_height := graph_height self;
  graph_width := graph_width self;
  padding := padding self;
  graph_height_margin := graph_height_margin self;
  graph_width_margin := graph_width_margin self;
  ticker_width := ticker_width self;
  plot_point_size := plot_point_size self;
  plot_point_color := plot_point_color self;
  plot_point_outline := plot_point_outline self;
  valid_file_extensions := valid_file_extensions self;
  tl_order := tl_order self;
  deg_min := deg_min self;
  deg_max := deg_max self;
  pixels_per_degree := pixels_per_degree self;
  total_frames := total_frames self;
  image_series := image_series self
|}.

(** The object of the example script: the default parser. *)
Definition tl : TimeLapse F :=
  configure init (temperature_text_parser (@init F))
            (Some "photos") (Some "save") 3.

(** The same with the parser attribute overridden by a string that is
    not a number, and by a number. *)
Definition tl_str : TimeLapse F :=
  configure init (PyStr "n/a") (Some "photos") (Some "save") 3.

Definition tl_int : TimeLapse F :=
  configure init (PyInt 54) (Some "photos") (Some "save") 3.

(** The same object pointed at a directory that does not exist. *)
Definition configure_dir (self : TimeLapse F) : TimeLapse F :=
  configure self (temperature_text_parser self) (Some "missing")
            (save_directory self) (images_per_second self).

Definition world (files : list string) (status : Z) : World F := {|
  listdir := fun dir =>
    if String.eqb dir "photos" then Ok files else Raise OSError;
  getctime := fun _ => Ok 0%Q;
  getmtime := fun _ => Ok 0%Q;
  readable := fun _ => true;
  image_to_string := fun _ => Ok "2019-01-05 10:00:00 12° 54° F";
  typed := fun name =>
    if String.eqb name "a.JPG" then Ok "50"
    else if String.eqb name "b.jpg" then Ok "40"
    else if String.eqb name "c.png" then Ok "45"
    else Ok "warm";
  font_found := fun _ => true;
  writable := fun _ => true;
  system := fun _ => status;
  elapsed := "0:00:01"
|}.

Definition photos : list string := ["b.jpg"; "a.JPG"; "notes.txt"; "c.png"].

(** A record as [load_images] leaves it. *)
Definition loaded {F} (name : string) (i : Z) : image_record F :=
  {| file_name := name; order := OName name; index := i;
     image := None; temp := None; temps := None |}.

(** A series of [n] loaded records, [start] the index of the first. *)
Fixpoint frames (n : nat) (start : Z) : list (image_record F) :=
  match n with
  | O => []
  | S n' => loaded (Py.str start) start :: frames n' (start + 1)
  end.

(** Twelve pictures named by the hour they were taken at, listed out of
    order, and the reading typed in at the prompt for each. *)
Definition readings : list (string * string) :=
  [("13.jpg", "22"); ("10.jpg", "28"); ("11.jpg", "25"); ("12.jpg", "23");
   ("14.jpg", "24"); ("15.jpg", "30"); ("16.jpg", "34"); ("17.jpg", "37");
   ("21.jpg", "31"); ("18.jpg", "39"); ("19.jpg", "38"); ("20.jpg", "35")].

Definition hourly : World F := {|
  listdir := fun dir =>
    if String.eqb dir "photos" then Ok (map fst readings) else Raise OSError;
  getctime := fun _ => Ok 0%Q;
  getmtime := fun _ => Ok 0%Q;
  readable := fun _ => true;
  image_to_string := fun _ => Ok "2019-01-05 10:00:00 12° 54° F";
  typed := fun name =>
    match find (fun reading => String.eqb (fst reading) name) readings with
    | Some reading => Ok (snd reading)
    | None => Ok "warm"
    end;
  font_found := fun _ => true;
  writable := fun _ => true;
  system := fun _ => 0;
  elapsed := "0:00:01"
|}.

(** The object after [load_images] and [process_images] in that world,
    every temperature typed in at the prompt. *)
Definition graphed : TimeLapse F :=
  fst (process_images hourly [] (fst (load_images hourly tl_str))).

(** An object after extraction: five frames between 20 and 40 degrees,
    the scale 26.5 pixels per degree. *)
Definition plotted : TimeLapse F :=
  set_computed tl (Some 20) (Some 40)
               (NFloat (S754_finite false 7459086882832384 (-48))) 5
               (frames 5 1).

Definition blank : Image F :=
  {| im_path := "photos/3"; im_crop := None; im_drawn := [] |}.

(** The third frame of [plotted], with its history. *)
Definition third_frame : image_record F :=
  set_temps (processed blank (loaded "3" 3) 40) [20; 30; 40].

End Demo.

(** The paths written by a run: the targets of [save] and [copyfile]. *)
Fixpoint written {F} (out : list (event F)) : list string :=
  match out with
  | [] => []
  | ESave path _ :: out' => path :: written out'
  | ECopy _ dst :: out' => dst :: written out'
  | _ :: out' => written out'
  end.

(** The contract of the extraction step in the words of the
    specification: call the parser on the OCR text, then convert what it
    returns to an integer. *)
Definition parse_then_convert (parser : pyobj) (text : string) : result Z :=
  match parser with
  | PyFunc parse => s <- parse text ;; Py.int_of_str s
  | _ => Raise TypeError
  end.

(** * Properties *)

(** ** The worker pool hands results back by position *)

Section Pool.
Context {F : Type} `{PyFloat F}.
Context {A B : Type}.
Variable f : A -> io F B.

Lemma completion_order_complete n schedule i :
  (i < n)%nat -> In i (completion_order n schedule).
Proof.
  intros Hi. unfold completion_order.
  set (early := nodup Nat.eq_dec _).
  apply in_or_app.
  destruct (existsb (Nat.eqb i) early) eqn:E.
  - left. apply existsb_exists in E as (j & Hj & Hij).
    apply Nat.eqb_eq in Hij. now subst j.
  - right. apply filter_In. split.
    + apply in_seq. lia.
    + now rewrite E.
Qed.

Lemma completion_order_bound n schedule i :
  In i (completion_order n schedule) -> (i < n)%nat.
Proof.
  unfold completion_order. intros Hin.
  apply in_app_or in Hin as [Hin | Hin].
  - apply nodup_In, filter_In in Hin as [_ Hlt].
    now apply Nat.ltb_lt in Hlt.
  - apply filter_In in Hin as [Hin _]. apply in_seq in Hin. lia.
Qed.

Lemma completion_order_NoDup n schedule :
  NoDup (completion_order n schedule).
Proof.
  unfold completion_order.
  set (early := nodup Nat.eq_dec _).
  apply NoDup_app.
  - apply NoDup_nodup.
  - apply NoDup_filter, seq_NoDup.
  - intros a Hearly Hlate.
    apply filter_In in Hlate as [_ Hneg].
    assert (E : existsb (Nat.eqb a) early = true).
    { apply existsb_exists. exists a. split; [assumption |].
      apply Nat.eqb_refl. }
    rewrite E in Hneg. discriminate.
Qed.

(** Every task completes once. *)
Lemma completion_order_permutation n schedule :
  Permutation (completion_order n schedule) (seq 0 n).
Proof.
  apply NoDup_Permutation.
  - apply completion_order_NoDup.
  - apply seq_NoDup.
  - intros i. split; intros Hi.
    + apply in_seq. apply completion_order_bound in Hi. lia.
    + apply completion_order_complete. apply in_seq in Hi. lia.
Qed.

(** Every order of completion is the one of some schedule. *)
Lemma completion_order_any n order :
  Permutation order (seq 0 n) -> completion_order n order = order.
Proof.
  intros Hperm. unfold completion_order.
  assert (Hall : forall i, In i order -> (i < n)%nat).
  { intros i Hi. apply (Permutation_in _ Hperm), in_seq in Hi. lia. }
  assert (Hnd : NoDup order).
  { apply (Permutation_NoDup (Permutation_sym Hperm)), seq_NoDup. }
  replace (filter (fun i => (i <? n)%nat) order) with order.
  2:{ symmetry. apply forallb_filter_id. apply forallb_forall.
      intros i Hi. apply Nat.ltb_lt. auto. }
  rewrite (nodup_fixed_point Nat.eq_dec Hnd).
  rewrite <- app_nil_r. f_equal.
  assert (Hin : forall i, In i (seq 0 n) -> In i order).
  { intros i Hi. apply (Permutation_in _ (Permutation_sym Hperm) Hi). }
  revert Hin. generalize (seq 0 n) as late.
  induction late as [| a late IH]; intros Hin; simpl; [reflexivity |].
  assert (E : existsb (Nat.eqb a) order = true).
  { apply existsb_exists. exists a. split; [apply Hin; now left |].
    apply Nat.eqb_refl. }
  rewrite E. simpl. apply IH. intros i Hi. apply Hin. now right.
Qed.

Lemma filed_cons i (y : B) done j :
  filed ((i, y) :: done) j = if (i =? j)%nat then Some y else filed done j.
Proof. unfold filed. simpl. now destruct (i =? j)%nat. Qed.

Lemma mapM_nth (g : A -> result B) xs ys :
  mapM g xs = Ok ys ->
  List.length ys = List.length xs /\
  forall i x, nth_error xs i = Some x ->
              exists y, g x = Ok y /\ nth_error ys i = Some y.
Proof.
  revert ys. induction xs as [| x xs IH]; intros ys Hm; simpl in Hm.
  - inversion Hm. split; [reflexivity |]. intros [|i] x; discriminate.
  - destruct (g x) as [y |] eqn:Ex; simpl in Hm; [| discriminate].
    destruct (mapM g xs) as [ys' |] eqn:Exs; simpl in Hm; [| discriminate].
    inversion Hm; subst ys. destruct (IH _ eq_refl) as [Hlen Hnth].
    split; [simpl; now rewrite Hlen |].
    intros [| i] x' Hx'; simpl in *.
    + inversion Hx'; subst x'. eauto.
    + auto.
Qed.

Lemma mapM_raise (g : A -> result B) xs e :
  mapM g xs = Raise e ->
  exists i x, nth_error xs i = Some x /\ g x = Raise e.
Proof.
  induction xs as [| x xs IH]; simpl; intros Hm; [discriminate |].
  destruct (g x) as [y |] eqn:Ex; simpl in Hm.
  - destruct (mapM g xs) as [ys' |] eqn:Exs; simpl in Hm; [discriminate |].
    inversion Hm; subst. destruct (IH eq_refl) as (i & x' & Hi & Hx').
    exists (S i), x'. auto.
  - inversion Hm; subst. exists 0%nat, x. auto.
Qed.

(** When every task succeeds, each result is filed under the position
    of its argument, whatever the order of completion. *)
Lemma run_tasks_filed xs ys order :
  (forall i x, nth_error xs i = Some x ->
               exists y, outcome f x = Ok y /\ nth_error ys i = Some y) ->
  exists out done,
    run_tasks f xs order = (out, Ok done) /\
    forall i, In i order -> (i < List.length xs)%nat ->
              filed done i = nth_error ys i.
Proof.
  intros Hall. induction order as [| i order IH]; simpl.
  - exists [], []. split; [reflexivity |]. intros i [].
  - destruct IH as (out & done & Hrun & Hfiled).
    destruct (nth_error xs i) as [x |] eqn:Ex.
    + destruct (Hall _ _ Ex) as (y & Hy & Hnth).
      unfold outcome in Hy. destruct (f x) as [o r] eqn:Efx.
      simpl in Hy. subst r. rewrite Hrun. simpl.
      exists (o ++ out ++ []), ((i, y) :: done).
      split; [reflexivity |].
      intros j Hj Hlt. rewrite filed_cons.
      destruct (Nat.eqb_spec i j) as [-> | Hne]; [now rewrite Hnth |].
      destruct Hj as [Hj | Hj]; [contradiction | auto].
    + exists out, done. split; [assumption |].
      intros j [Hj | Hj] Hlt; [| auto].
      subst j. apply nth_error_None in Ex. lia.
Qed.

Lemma run_tasks_raise xs order i x e :
  In i order -> nth_error xs i = Some x -> outcome f x = Raise e ->
  exists out e', run_tasks f xs order = (out, Raise e').
Proof.
  intros Hin Hx He. induction order as [| j order IH]; [destruct Hin |].
  simpl. destruct (Nat.eq_dec j i) as [-> | Hne].
  - rewrite Hx. unfold outcome in He. destruct (f x) as [o r].
    simpl in He. subst r. simpl. eauto.
  - destruct Hin as [Hin | Hin]; [contradiction |].
    destruct (IH Hin) as (out & e' & Hrun).
    destruct (nth_error xs j) as [xj |]; [| eauto].
    destruct (f xj) as [o [y | e0]]; simpl; [| eauto].
    rewrite Hrun. simpl. eauto.
Qed.

Lemma read_off_seq (done : list (nat * B)) ys k a :
  (forall i, (i < a + k)%nat -> (a <= i)%nat ->
             filed done i = nth_error ys i) ->
  (a + k <= List.length ys)%nat ->
  read_off done (seq a k) = firstn k (skipn a ys).
Proof.
  revert a. induction k as [| k IH]; intros a Hfiled Hlen; simpl.
  - reflexivity.
  - rewrite (Hfiled a) by lia.
    destruct (nth_error ys a) as [y |] eqn:Ey.
    2:{ apply nth_error_None in Ey. lia. }
    apply nth_error_split in Ey as (l1 & l2 & -> & <-).
    rewrite skipn_app, Nat.sub_diag, skipn_all. simpl. f_equal.
    rewrite IH.
    + f_equal. replace (S (List.length l1)) with (List.length (l1 ++ [y])).
      2:{ rewrite length_app. simpl. lia. }
      change (l1 ++ y :: l2) with (l1 ++ [y] ++ l2).
      rewrite app_assoc, skipn_app, Nat.sub_diag, skipn_all. reflexivity.
    + intros i Hi1 Hi2. apply Hfiled; lia.
    + rewrite length_app in *. simpl in *. lia.
Qed.

(** [Pool.map] succeeds exactly when every task does, and then hands
    back the results in the order of the arguments. *)
Lemma pool_map_ok schedule xs ys :
  mapM (outcome f) xs = Ok ys ->
  exists out, pool_map schedule f xs = (out, Ok ys).
Proof.
  intros Hm. apply mapM_nth in Hm as [Hlen Hnth].
  destruct (run_tasks_filed xs ys
              (completion_order (List.length xs) schedule) Hnth)
    as (out & done & Hrun & Hfiled).
  unfold pool_map. rewrite Hrun. simpl.
  exists (out ++ []). do 2 f_equal.
  rewrite read_off_seq with (ys := ys).
  - simpl. rewrite <- Hlen. apply firstn_all.
  - intros i Hi _. apply Hfiled; [| lia].
    apply completion_order_complete. lia.
  - lia.
Qed.

Lemma pool_map_raise schedule xs e :
  mapM (outcome f) xs = Raise e ->
  exists out e', pool_map schedule f xs = (out, Raise e').
Proof.
  intros Hm. apply mapM_raise in Hm as (i & x & Hi & Hx).
  destruct (run_tasks_raise xs (completion_order (List.length xs) schedule)
              i x e) as (out & e' & Hrun); try assumption.
  - apply completion_order_complete. apply nth_error_Some. congruence.
  - unfold pool_map. rewrite Hrun. simpl. eauto.
Qed.

Lemma pool_map_inv schedule xs out ys :
  pool_map schedule f xs = (out, Ok ys) -> mapM (outcome f) xs = Ok ys.
Proof.
  intros Hp. destruct (mapM (outcome f) xs) as [ys' | e] eqn:Em.
  - destruct (pool_map_ok schedule xs ys' Em) as (out' & Hp').
    congruence.
  - destruct (pool_map_raise schedule xs e Em) as (out' & e' & Hp').
    congruence.
Qed.
End Pool.

(** ** [process_image] *)

Section ProcessImage.
Context {F : Type} `{PyFloat F}.
Variable w : World F.
Variable self : TimeLapse F.

Lemma bind_lift_ok {A B} (r : result A) (k : A -> io F B) out b :
  bind (lift r) k = (out, Ok b) ->
  exists a, r = Ok a /\ k a = (out, Ok b).
Proof.
  unfold bind, lift. destruct r as [a | e]; [| discriminate].
  destruct (k a) as [o r] eqn:E. simpl. intros Hk. exists a.
  split; [reflexivity |]. congruence.
Qed.

(** What [process_image] returns, when it returns, and by which branch. *)
Lemma process_image_returns file_meta out r :
  process_image w self file_meta = (out, Ok r) ->
  exists im t,
    r = processed im file_meta t /\
    ((py_int (temperature_text_parser self) = Ok t /\ out = []) \/
     ((py_int (temperature_text_parser self) = Raise IndexError \/
       py_int (temperature_text_parser self) = Raise ValueError) /\
      (exists line, typed w (file_name file_meta) = Ok line /\
                    Py.int_of_str line = Ok t) /\
      out = [EPrint "!! Failed to extract temperature."; EShow im;
             EPrompt "Enter temperature seen in image:"])).
Proof.
  unfold process_image. intros Hp.
  apply bind_lift_ok in Hp as (path & _ & Hp).
  apply bind_lift_ok in Hp as (im & _ & Hp).
  apply bind_lift_ok in Hp as (text & _ & Hp).
  exists im.
  destruct (py_int (temperature_text_parser self)) as [t | e] eqn:Eint.
  - exists t. inversion Hp; subst. auto.
  - assert (Hfb :
      (emit (EPrint "!! Failed to extract temperature.") ;;;
       emit (EShow im) ;;;
       emit (EPrompt "Enter temperature seen in image:") ;;;
       line <-- lift (typed w (file_name file_meta)) ;;;
       t <-- lift (Py.int_of_str line) ;;;
       ret (processed im file_meta t)) = (out, Ok r) ->
      exists t, r = processed im file_meta t /\
        (exists line, typed w (file_name file_meta) = Ok line /\
                      Py.int_of_str line = Ok t) /\
        out = [EPrint "!! Failed to extract temperature."; EShow im;
               EPrompt "Enter temperature seen in image:"]).
    { clear. unfold bind, emit, lift, ret. simpl.
      destruct (typed w (file_name file_meta)) as [line |];
        [| discriminate].
      destruct (Py.int_of_str line) as [t |] eqn:Et; simpl;
        [| discriminate].
      intros Hq. inversion Hq; subst. exists t. eauto. }
    destruct e; try discriminate Hp;
      destruct (Hfb Hp) as (t & Hr & Hline & Hout);
      exists t; split; auto.
Qed.

(** Up to the conversion, [process_image] opens the picture and runs the
    OCR engine on the cropped footer. *)
Lemma process_image_unfold file_meta path text :
  path_join (images_directory self) (file_name file_meta) = Ok path ->
  readable w path = true ->
  image_to_string w
    (crop {| im_path := path; im_crop := None; im_drawn := [] |}
          (ocr_binding_box self)) = Ok text ->
  let im := {| im_path := path; im_crop := None; im_drawn := [] |} in
  process_image w self file_meta =
  match py_int (temperature_text_parser self) with
  | Ok t => ([], Ok (processed im file_meta t))
  | Raise IndexError | Raise ValueError =>
      ([EPrint "!! Failed to extract temperature."; EShow im;
        EPrompt "Enter temperature seen in image:"],
       line <- typed w (file_name file_meta) ;;
       t <- Py.int_of_str line ;;
       Ok (processed im file_meta t))
  | Raise e => ([], Raise e)
  end.
Proof.
  intros Hpath Hread Hocr im. unfold process_image, image_open.
  rewrite Hpath. simpl. rewrite Hread. simpl.
  rewrite Hocr. simpl. fold im.
  destruct (py_int (temperature_text_parser self)) as [t | e];
    [reflexivity |].
  destruct e; try reflexivity;
    unfold bind, emit, lift, ret; simpl;
    destruct (typed w (file_name file_meta)) as [line |]; simpl;
      try reflexivity;
    destruct (Py.int_of_str line); reflexivity.
Qed.

(** The handler of [process_image]: once the conversion has raised
    [IndexError] or [ValueError], the picture is shown, one line is read,
    and a line that is not a number ends the call with [ValueError]. *)
Lemma process_image_fallback file_meta path text line :
  path_join (images_directory self) (file_name file_meta) = Ok path ->
  readable w path = true ->
  image_to_string w
    (crop {| im_path := path; im_crop := None; im_drawn := [] |}
          (ocr_binding_box self)) = Ok text ->
  py_int (temperature_text_parser self) = Raise ValueError \/
  py_int (temperature_text_parser self) = Raise IndexError ->
  typed w (file_name file_meta) = Ok line ->
  let im := {| im_path := path; im_crop := None; im_drawn := [] |} in
  process_image w self file_meta =
    ([EPrint "!! Failed to extract temperature."; EShow im;
      EPrompt "Enter temperature seen in image:"],
     match Py.int_of_str line with
     | Ok t => Ok (processed im file_meta t)
     | Raise _ => Raise ValueError
     end).
Proof.
  intros Hpath Hread Hocr Hint Hline im.
  rewrite (process_image_unfold _ _ _ Hpath Hread Hocr). fold im.
  assert (Hv : forall s, Py.int_of_str s = Raise ValueError \/
                         exists t, Py.int_of_str s = Ok t).
  { intros s0. unfold Py.int_of_str.
    match goal with |- context [match ?r with Some _ => _ | None => _ end] =>
      destruct r end; eauto. }
  destruct Hint as [-> | ->]; rewrite Hline; simpl;
    destruct (Hv line) as [-> | (t & ->)]; reflexivity.
Qed.

(** A function object is not a number: with a parser that is a
    function, the conversion raises [TypeError], which the handler does
    not catch. *)
Lemma process_image_function_parser file_meta parse :
  temperature_text_parser self = PyFunc parse ->
  forall out r, process_image w self file_meta <> (out, Ok r).
Proof.
  intros Hparser out r Hp.
  apply process_image_returns in Hp as (im & t & _ & Hbranch).
  rewrite Hparser in Hbranch. simpl in Hbranch.
  destruct Hbranch as [[Hb _] | [[Hb | Hb] _]]; discriminate.
Qed.

(** C10. Whichever branch returns, the successful conversion or the
    interactive fallback, the record handed back has the ['file_name'],
    ['order'] and ['index'] of the argument; the call adds ['image'] and
    ['temp'] and nothing else.  Both branches do return: the first when
    the conversion yields an integer, the second when it raises
    [ValueError] or [IndexError] and the line typed is a number. *)
Theorem process_image_keeps_identity file_meta path text :
  path_join (images_directory self) (file_name file_meta) = Ok path ->
  readable w path = true ->
  image_to_string w
    (crop {| im_path := path; im_crop := None; im_drawn := [] |}
          (ocr_binding_box self)) = Ok text ->
  let same (r : image_record F) :=
    file_name r = file_name file_meta /\
    order r = order file_meta /\
    index r = index file_meta /\
    image r = Some {| im_path := path; im_crop := None; im_drawn := [] |} /\
    temps r = None in
  (forall t, py_int (temperature_text_parser self) = Ok t ->
     exists r, process_image w self file_meta = ([], Ok r) /\
               same r /\ temp r = Some t) /\
  (forall line t,
     py_int (temperature_text_parser self) = Raise ValueError \/
     py_int (temperature_text_parser self) = Raise IndexError ->
     typed w (file_name file_meta) = Ok line ->
     Py.int_of_str line = Ok t ->
     exists out r, process_image w self file_meta = (out, Ok r) /\
                   same r /\ temp r = Some t) /\
  (forall out r, process_image w self file_meta = (out, Ok r) -> same r).
Proof.
  intros Hpath Hread Hocr same. repeat split.
  - intros t Hint.
    rewrite (process_image_unfold _ _ _ Hpath Hread Hocr), Hint.
    eexists. split; [reflexivity |]. repeat split.
  - intros line t Hint Hline Ht.
    rewrite (process_image_fallback _ _ _ _ Hpath Hread Hocr Hint Hline), Ht.
    do 2 eexists. split; [reflexivity |]. repeat split.
  - apply process_image_returns in H0 as (im & t & -> & _). reflexivity.
  - apply process_image_returns in H0 as (im & t & -> & _). reflexivity.
  - apply process_image_returns in H0 as (im & t & -> & _). reflexivity.
  - rewrite (process_image_unfold _ _ _ Hpath Hread Hocr) in H0.
    destruct (py_int (temperature_text_parser self)) as [t | e].
    + inversion H0; subst. reflexivity.
    + destruct e; try discriminate H0;
        destruct (typed w (file_name file_meta)) as [line |];
        try discriminate H0; simpl in H0;
        destruct (Py.int_of_str line); try discriminate H0;
        inversion H0; subst; reflexivity.
  - apply process_image_returns in H0 as (im & t & -> & _). reflexivity.
Qed.
End ProcessImage.

Lemma process_image_keeps_identity_witness :
  let m := Demo.loaded "b.jpg" 2 in
  let w := Demo.world Demo.photos 0 in
  (exists r, process_image w Demo.tl_int m = ([], Ok r) /\
             file_name r = "b.jpg" /\ index r = 2 /\ temp r = Some 54) /\
  (exists out r, process_image w Demo.tl_str m = (out, Ok r) /\
                 file_name r = "b.jpg" /\ index r = 2 /\ temp r = Some 40).
Proof.
  intros m w. split.
  - destruct (process_image_keeps_identity w Demo.tl_int m "photos/b.jpg"
                "2019-01-05 10:00:00 12° 54° F"
                eq_refl eq_refl eq_refl) as (Hok & _ & _).
    destruct (Hok 54 eq_refl) as (r & Hr & (Hn & _ & Hi & _) & Ht).
    exists r. auto.
  - destruct (process_image_keeps_identity w Demo.tl_str m "photos/b.jpg"
                "2019-01-05 10:00:00 12° 54° F"
                eq_refl eq_refl eq_refl) as (_ & Hfb & _).
    destruct (Hfb "40" 40 (or_introl eq_refl) eq_refl eq_refl)
      as (out & r & Hr & (Hn & _ & Hi & _) & Ht).
    exists out, r. auto.
Defined.

(** C2. The contract is to apply the parser to the OCR text and convert
    what it returns; on the footer of the example that gives 54.
    [process_image] converts the parser attribute itself: with the default
    parser the call ends in [TypeError] before any record is built, and
    the OCR text plays no part. *)
Theorem process_image_skips_parser :
  let w := Demo.world Demo.photos 0 in
  let m := Demo.loaded "a.JPG" 1 in
  image_to_string w
    (crop {| im_path := "photos/a.JPG"; im_crop := None; im_drawn := [] |}
          (ocr_binding_box Demo.tl))
  = Ok "2019-01-05 10:00:00 12° 54° F" /\
  parse_then_convert (temperature_text_parser Demo.tl)
                     "2019-01-05 10:00:00 12° 54° F" = Ok 54 /\
  process_image w Demo.tl m = ([], Raise TypeError).
Proof. repeat split. Qed.

(** C4. With the default parser the conversion fails on every picture,
    and the failure is not one the handler catches: nothing is printed,
    no picture is shown, no line is read, and [TypeError] reaches the
    caller.  With a parser attribute whose conversion raises [ValueError]
    the fallback is taken, and a typed line that is not a number ends the
    call with [ValueError]. *)
Theorem default_parser_failure_skips_fallback :
  let w := Demo.world Demo.photos 0 in
  py_int (temperature_text_parser Demo.tl) = Raise TypeError /\
  process_image w Demo.tl (Demo.loaded "a.JPG" 1) = ([], Raise TypeError) /\
  process_image w Demo.tl_str (Demo.loaded "a.JPG" 1)
  = ([EPrint "!! Failed to extract temperature.";
      EShow {| im_path := "photos/a.JPG"; im_crop := None; im_drawn := [] |};
      EPrompt "Enter temperature seen in image:"],
     Ok (processed
           {| im_path := "photos/a.JPG"; im_crop := None; im_drawn := [] |}
           (Demo.loaded "a.JPG" 1) 50)) /\
  snd (process_image w Demo.tl_str (Demo.loaded "d.png" 4)) = Raise ValueError.
Proof. repeat split. Qed.

(** ** The aggregation loop of [process_images] *)

Section Aggregate.
Context {F : Type} `{PyFloat F}.

Lemma temperatures_cons (img : image_record F) rest t :
  temp img = Some t ->
  temperatures (img :: rest) = t :: temperatures rest.
Proof. intros Ht. unfold temperatures. simpl. now rewrite Ht. Qed.

Lemma temperatures_length (series : list (image_record F)) :
  Forall (fun img => temp img <> None) series ->
  List.length (temperatures series) = List.length series.
Proof.
  induction 1 as [| img rest Himg _ IH]; [reflexivity |].
  destruct (temp img) as [t |] eqn:Et; [| contradiction].
  rewrite (temperatures_cons _ _ _ Et). simpl. now rewrite IH.
Qed.

Lemma temperatures_map (series : list (image_record F)) :
  Forall (fun img => temp img <> None) series ->
  map Some (temperatures series) = map (@temp F) series.
Proof.
  induction 1 as [| img rest Himg _ IH]; [reflexivity |].
  destruct (temp img) as [t |] eqn:Et; [| contradiction].
  rewrite (temperatures_cons _ _ _ Et). simpl. now rewrite IH, Et.
Qed.

(** The loop visits the records in list order; the record at position
    [i] receives the temperatures read so far followed by those of
    positions [0..i]. *)
Lemma aggregate_history (series : list (image_record F)) :
  Forall (fun img => temp img <> None) series ->
  forall dmax dmin current_temps,
  exists hi lo series',
    aggregate dmax dmin current_temps series = (hi, lo, series', Ok tt) /\
    List.length series' = List.length series /\
    forall i r', nth_error series' i = Some r' ->
      exists r, nth_error series i = Some r /\
                r' = set_temps r (current_temps
                                  ++ temperatures (firstn (S i) series)).
Proof.
  induction 1 as [| img rest Himg _ IH]; intros dmax dmin cur.
  - exists dmax, dmin, []. repeat split. intros [| i] r'; discriminate.
  - destruct (temp img) as [t |] eqn:Et; [| contradiction].
    cbn [aggregate]. rewrite Et.
    match goal with |- context [aggregate ?a ?b ?c rest] =>
      destruct (IH a b c) as (hi & lo & rest' & Hagg & Hlen & Hnth)
    end.
    rewrite Hagg. do 3 eexists. split; [reflexivity |].
    split; [simpl; now rewrite Hlen |].
    intros [| i] r' Hr'; simpl in Hr'.
    + inversion Hr'; subst r'. exists img. split; [reflexivity |].
      cbn [firstn]. now rewrite (temperatures_cons _ _ _ Et).
    + destruct (Hnth _ _ Hr') as (r & Hr & ->).
      exists r. split; [assumption |].
      change (firstn (S (S i)) (img :: rest))
        with (img :: firstn (S i) rest).
      rewrite (temperatures_cons _ _ _ Et), <- app_assoc. reflexivity.
Qed.

(** [dmax] after the loop bounds every temperature and the value it
    started from, and is one of them. *)
Lemma aggregate_extrema (series : list (image_record F)) :
  forall dmax dmin current_temps hi lo series' r,
  aggregate dmax dmin current_temps series = (hi, lo, series', r) ->
  r = Ok tt ->
  (forall t, In t (temperatures series) ->
             exists h l, hi = Some h /\ lo = Some l /\ l <= t <= h) /\
  (forall m, dmax = Some m -> exists h, hi = Some h /\ m <= h) /\
  (forall m, dmin = Some m -> exists l, lo = Some l /\ l <= m) /\
  (hi = dmax \/ exists t, In t (temperatures series) /\ hi = Some t) /\
  (lo = dmin \/ exists t, In t (temperatures series) /\ lo = Some t).
Proof.
  induction series as [| img rest IH];
    intros dmax dmin cur hi lo series' r Hagg Hr.
  - simpl in Hagg. inversion Hagg; subst.
    split; [intros t [] |].
    split; [intros m ->; exists m; split; [reflexivity | lia] |].
    split; [intros m ->; exists m; split; [reflexivity | lia] |].
    split; now left.
  - cbn [aggregate] in Hagg.
    destruct (temp img) as [t |] eqn:Et.
    2:{ inversion Hagg; subst. discriminate. }
    match type of Hagg with context [aggregate ?a ?b ?c rest] =>
      destruct (aggregate a b c rest) as [[[hi' lo'] rest'] r'] eqn:Erest;
      set (dmax1 := a) in *; set (dmin1 := b) in *
    end.
    inversion Hagg; subst hi' lo' series' r'. clear Hagg.
    destruct (IH _ _ _ _ _ _ _ Erest Hr)
      as (Hin & Hmax & Hmin & Hhi & Hlo).
    assert (Hd1 : exists m1, dmax1 = Some m1 /\ t <= m1 /\
                  (forall m, dmax = Some m -> m <= m1) /\
                  (m1 = t \/ dmax = Some m1)).
    { unfold dmax1. destruct dmax as [m |].
      - destruct (Z.gtb_spec t m).
        + exists t. repeat split; auto with zarith.
          intros m' Hm'. inversion Hm'. lia.
        + exists m. repeat split; auto with zarith.
          intros m' Hm'. inversion Hm'. lia.
      - exists t. repeat split; auto with zarith. discriminate. }
    assert (Hd2 : exists m2, dmin1 = Some m2 /\ m2 <= t /\
                  (forall m, dmin = Some m -> m2 <= m) /\
                  (m2 = t \/ dmin = Some m2)).
    { unfold dmin1. destruct dmin as [m |].
      - destruct (Z.ltb_spec t m).
        + exists t. repeat split; auto with zarith.
          intros m' Hm'. inversion Hm'. lia.
        + exists m. repeat split; auto with zarith.
          intros m' Hm'. inversion Hm'. lia.
      - exists t. repeat split; auto with zarith. discriminate. }
    destruct Hd1 as (m1 & Em1 & Htm1 & Hold1 & Hor1).
    destruct Hd2 as (m2 & Em2 & Htm2 & Hold2 & Hor2).
    destruct (Hmax _ Em1) as (h & Eh & Hh).
    destruct (Hmin _ Em2) as (l & El & Hl).
    rewrite (temperatures_cons _ _ _ Et).
    split; [| split; [| split; [| split]]].
    + intros t' [<- | Ht'].
      * exists h, l. repeat split; auto; lia.
      * apply Hin, Ht'.
    + intros m Hm. exists h. split; [assumption |].
      specialize (Hold1 _ Hm). lia.
    + intros m Hm. exists l. split; [assumption |].
      specialize (Hold2 _ Hm). lia.
    + destruct Hhi as [Hhi | (t' & Ht' & Hhi)].
      * rewrite Hhi, Em1.
        destruct Hor1 as [-> | ->]; [right; exists t; simpl; auto | now left].
      * right. exists t'. simpl. auto.
    + destruct Hlo as [Hlo | (t' & Ht' & Hlo)].
      * rewrite Hlo, Em2.
        destruct Hor2 as [-> | ->]; [right; exists t; simpl; auto | now left].
      * right. exists t'. simpl. auto.
Qed.
End Aggregate.

(** ** [load_images] and [process_images] *)

Section Extraction.
Context {F : Type} `{PyFloat F}.
Variable w : World F.

Lemma set_indices_nth (series : list (image_record F)) :
  forall start i r,
    nth_error (set_indices start series) i = Some r ->
    index r = start + Z.of_nat i.
Proof.
  induction series as [| img rest IH]; intros start [| i] r Hr;
    simpl in Hr; try discriminate.
  - inversion Hr; subst. simpl. lia.
  - rewrite (IH _ _ _ Hr). lia.
Qed.

(** [load_images] numbers the records 1, 2, ... in list order. *)
Lemma load_images_indexed self self' out :
  load_images w self = (self', (out, Ok tt)) ->
  forall i r, nth_error (image_series self') i = Some r ->
              index r = Z.of_nat (S i).
Proof.
  unfold load_images. intros Hl i r Hr.
  destruct (names <- listdir w _ ;; collect w self names) as [fl | e].
  - inversion Hl; subst self'. simpl in Hr.
    apply set_indices_nth in Hr. lia.
  - inversion Hl.
Qed.

(** Position by position, a successful extraction turns each record
    into [processed _ record _]. *)
Lemma extraction_pointwise self xs ys :
  mapM (outcome (process_image w self)) xs = Ok ys ->
  Forall2 (fun x y => exists im t, y = processed im x t) xs ys.
Proof.
  revert ys. induction xs as [| x xs IH]; intros ys Hm; simpl in Hm.
  - inversion Hm. constructor.
  - unfold outcome at 1 in Hm.
    destruct (process_image w self x) as [o [y |]] eqn:Ex;
      simpl in Hm; [| discriminate].
    destruct (mapM _ xs) as [ys' |]; simpl in Hm; [| discriminate].
    inversion Hm; subst ys. constructor; [| now apply IH].
    apply process_image_returns in Ex as (im & t & -> & _). eauto.
Qed.

Lemma extraction_has_temps self xs ys :
  mapM (outcome (process_image w self)) xs = Ok ys ->
  Forall (fun img => temp img <> None) ys.
Proof.
  intros Hm. apply extraction_pointwise in Hm.
  induction Hm as [| x y xs ys (im & t & ->) _ IH]; constructor;
    [discriminate | assumption].
Qed.

Lemma extraction_nth self xs ys i y :
  mapM (outcome (process_image w self)) xs = Ok ys ->
  nth_error ys i = Some y ->
  exists x im t, nth_error xs i = Some x /\ y = processed im x t.
Proof.
  intros Hm. apply extraction_pointwise in Hm. revert i.
  induction Hm as [| x0 y0 xs ys (im & t & ->) _ IH]; intros [| i] Hy;
    simpl in Hy; try discriminate.
  - inversion Hy; subst. exists x0, im, t. auto.
  - apply IH in Hy as (x & im' & t' & Hx & ->). exists x, im', t'. auto.
Qed.

(** The state [process_images] leaves once the pool has handed back
    [series]: the loop has run over [series] in list order, also when
    [compute_pixels_per_temp] raises afterwards. *)
Lemma process_images_state schedule self out series :
  pool_map schedule (process_image w self) (image_series self)
  = (out, Ok series) ->
  exists hi lo series',
    aggregate (deg_max self) (deg_min self) [] series
    = (hi, lo, series', Ok tt) /\
    image_series (fst (process_images w schedule self)) = series' /\
    deg_max (fst (process_images w schedule self)) = hi /\
    deg_min (fst (process_images w schedule self)) = lo.
Proof.
  intros Hpool.
  pose proof (pool_map_inv _ _ _ _ _ Hpool) as Hm.
  destruct (aggregate_history series (extraction_has_temps _ _ _ Hm)
              (deg_max self) (deg_min self) [])
    as (hi & lo & series' & Hagg & _).
  exists hi, lo, series'. split; [assumption |].
  unfold process_images. rewrite Hpool. cbn [image_series set_image_series
    set_computed deg_max deg_min]. rewrite Hagg.
  destruct (compute_pixels_per_temp _); simpl; auto.
Qed.

(** The object [process_images] leaves does not depend on the order in
    which the workers finished. *)
Lemma process_images_schedule schedule schedule' self :
  fst (process_images w schedule self)
  = fst (process_images w schedule' self) /\
  (snd (snd (process_images w schedule self)) = Ok tt <->
   snd (snd (process_images w schedule' self)) = Ok tt).
Proof.
  unfold process_images.
  destruct (mapM (outcome (process_image w self)) (image_series self))
    as [series | e] eqn:Em.
  - destruct (pool_map_ok (process_image w self) schedule _ _ Em)
      as (out & ->).
    destruct (pool_map_ok (process_image w self) schedule' _ _ Em)
      as (out' & ->).
    destruct (aggregate _ _ _ _) as [[[hi lo] series'] [[] | e]];
      [| simpl; split; [reflexivity | split; discriminate]].
    destruct (compute_pixels_per_temp _); simpl;
      split; try reflexivity; split; auto; discriminate.
  - destruct (pool_map_raise (process_image w self) schedule _ _ Em)
      as (out & e1 & ->).
    destruct (pool_map_raise (process_image w self) schedule' _ _ Em)
      as (out' & e2 & ->).
    simpl. split; [reflexivity | split; discriminate].
Qed.

(** C1. After a run of [load_images] and a full run of
    [process_images], the record at index [i] (position [i - 1] of the
    series, [i] from 1 to N) holds in ['temps'] exactly [i]
    temperatures, those of the records of index 1 to [i] in that order;
    and the same object results from every order in which the workers
    may have completed. *)
Theorem temperature_history_by_index schedule self0 self1 self2 out1 out2 :
  load_images w self0 = (self1, (out1, Ok tt)) ->
  process_images w schedule self1 = (self2, (out2, Ok tt)) ->
  List.length (image_series self2) = List.length (image_series self1) /\
  (forall i r, nth_error (image_series self2) i = Some r ->
     index r = Z.of_nat (S i) /\
     exists ts, temps r = Some ts /\
                List.length ts = S i /\
                map Some ts = map (@temp F) (firstn (S i) (image_series self2))) /\
  (forall schedule',
     fst (process_images w schedule' self1) = self2 /\
     snd (snd (process_images w schedule' self1)) = Ok tt).
Proof.
  intros Hload Hrun.
  assert (Hschedule : forall schedule',
     fst (process_images w schedule' self1) = self2 /\
     snd (snd (process_images w schedule' self1)) = Ok tt).
  { intros schedule'.
    destruct (process_images_schedule schedule schedule' self1) as [Hs Hr].
    rewrite Hrun in Hs, Hr. simpl in Hs, Hr. split; [now symmetry | tauto]. }
  destruct (pool_map schedule (process_image w self1) (image_series self1))
    as [out [series | e]] eqn:Hpool.
  2:{ unfold process_images in Hrun. rewrite Hpool in Hrun.
      inversion Hrun. }
  pose proof (pool_map_inv _ _ _ _ _ Hpool) as Hm.
  destruct (process_images_state _ _ _ _ Hpool)
    as (hi & lo & series' & Hagg & Hseries & _).
  rewrite Hrun in Hseries. simpl in Hseries.
  pose proof (extraction_has_temps _ _ _ Hm) as Htemps.
  destruct (aggregate_history series Htemps (deg_max self1) (deg_min self1) [])
    as (hi' & lo' & series'' & Hagg' & Hlen & Hnth).
  rewrite Hagg in Hagg'. inversion Hagg'; subst hi' lo' series''.
  clear Hagg'.
  assert (Hlen1 : List.length series = List.length (image_series self1))
    by (apply mapM_nth in Hm; tauto).
  assert (Hsame : map (@temp F) series' = map (@temp F) series).
  { apply nth_error_ext. intros i. rewrite !nth_error_map.
    destruct (nth_error series' i) as [r' |] eqn:Er'.
    - destruct (Hnth _ _ Er') as (r & -> & ->). reflexivity.
    - apply nth_error_None in Er'. rewrite Hlen in Er'.
      apply nth_error_None in Er'. now rewrite Er'. }
  rewrite Hseries. split; [congruence |]. split; [| exact Hschedule].
  intros i r' Hr'.
  destruct (Hnth _ _ Hr') as (r & Hr & ->).
  destruct (extraction_nth _ _ _ _ _ Hm Hr) as (x & im & t & Hx & ->).
  split.
  - simpl. apply (load_images_indexed _ _ _ Hload _ _ Hx).
  - exists (temperatures (firstn (S i) series)). split; [reflexivity |].
    assert (Hpre : Forall (fun img : image_record F => temp img <> None)
                          (firstn (S i) series)).
    { apply Forall_forall. intros y Hy.
      apply (proj1 (Forall_forall _ _) Htemps).
      apply (In_nth_error) in Hy as (k & Hk).
      rewrite <- (firstn_skipn (S i) series).
      apply in_or_app. left. eapply nth_error_In; eauto. }
    split.
    + rewrite (temperatures_length _ Hpre), length_firstn.
      assert (i < List.length series)%nat
        by (apply nth_error_Some; congruence).
      lia.
    + rewrite (temperatures_map _ Hpre), <- !firstn_map. now rewrite Hsame.
Qed.



End Extraction.

Lemma temperature_history_by_index_witness :
  let w := Demo.world Demo.photos 0 in
  let self1 := fst (load_images w Demo.tl_str) in
  let self2 := fst (process_images w [2; 0]%nat self1) in
  map (@file_name Demo.F) (image_series self2) = ["a.JPG"; "b.jpg"; "c.png"] /\
  map (@temp Demo.F) (image_series self2) = [Some 50; Some 40; Some 45] /\
  map (@temps Demo.F) (image_series self2)
  = [Some [50]; Some [50; 40]; Some [50; 40; 45]] /\
  List.length (image_series self2) = List.length (image_series self1) /\
  (forall i r, nth_error (image_series self2) i = Some r ->
     index r = Z.of_nat (S i) /\
     exists ts, temps r = Some ts /\
                List.length ts = S i /\
                map Some ts
                = map (@temp Demo.F) (firstn (S i) (image_series self2))) /\
  (forall schedule',
     fst (process_images w schedule' self1) = self2 /\
     snd (snd (process_images w schedule' self1)) = Ok tt).
Proof.
  intros w self1 self2.
  split; [reflexivity |]. split; [reflexivity |]. split; [reflexivity |].
  apply (temperature_history_by_index w [2; 0]%nat Demo.tl_str self1 self2
           (fst (snd (load_images w Demo.tl_str)))
           (fst (snd (process_images w [2; 0]%nat self1))));
    reflexivity.
Defined.




(** ** Loading a directory without pictures, and the encoder's status *)

Section LoadingAndEncoding.
Context {F : Type} `{PyFloat F}.
Variable w : World F.

Lemma collect_no_match self names :
  Forall (fun name =>
            Py.endswith (Py.lower name) (valid_file_extensions self) = false)
         names ->
  collect w self names = Ok [].
Proof.
  induction 1 as [| name names Hname _ IH]; simpl; [reflexivity |].
  now rewrite Hname.
Qed.

(** C5, as the code has it. When the directory cannot be listed,
    [load_images] raises the error of the listing before anything else
    happens and leaves the object as it was.  A directory that is empty,
    or that holds no entry with an allowed extension, is loaded without
    failure: the series is empty and the count reported is 0. *)
Theorem load_images_without_pictures self dir :
  dir = match images_directory self with Some d => d | None => "." end ->
  (forall e, listdir w dir = Raise e ->
             load_images w self = (self, ([], Raise e))) /\
  (forall names,
     listdir w dir = Ok names ->
     Forall (fun name =>
               Py.endswith (Py.lower name) (valid_file_extensions self) = false)
            names ->
     load_images w self
     = (set_image_series self [], ([EPrint "Loaded 0 files"], Ok tt))).
Proof.
  intros ->. split.
  - intros e He. unfold load_images. rewrite He. reflexivity.
  - intros names Hnames Hnone. unfold load_images. rewrite Hnames. simpl.
    rewrite (collect_no_match _ _ Hnone). reflexivity.
Qed.

(** C9, as the code has it. [render_video] hands one command to the shell
    and drops the status it gets back: whatever the encoder exits with,
    the call prints "Done." and returns normally. *)
Theorem render_video_drops_status self save_as dir :
  save_directory self = Some dir ->
  exists command,
    ffmpeg_command self save_as = Ok command /\
    render_video w save_as self
    = ([EPrint "Calling ffmpeg..."; ESystem command; EPrint "Done."], Ok tt).
Proof.
  intros Hdir. unfold render_video, ffmpeg_command. rewrite Hdir.
  eexists. split; reflexivity.
Qed.
End LoadingAndEncoding.

Lemma load_images_without_pictures_witness :
  (load_images (Demo.world ["notes.txt"; "clip.mp4"] 0) Demo.tl
   = (set_image_series Demo.tl [], ([EPrint "Loaded 0 files"], Ok tt))) /\
  (load_images (Demo.world [] 0) (Demo.configure_dir Demo.tl)
   = (Demo.configure_dir Demo.tl, ([], Raise OSError))).
Proof.
  split.
  - apply (proj2 (load_images_without_pictures
                    (Demo.world ["notes.txt"; "clip.mp4"] 0) Demo.tl "photos"
                    eq_refl) ["notes.txt"; "clip.mp4"] eq_refl).
    repeat constructor.
  - apply (proj1 (load_images_without_pictures
                    (Demo.world [] 0) (Demo.configure_dir Demo.tl) "missing"
                    eq_refl) OSError eq_refl).
Defined.

(** An empty directory: [load_images] succeeds with an empty series, and
    [make_video] goes on to call the encoder. *)
Lemma load_images_empty_directory_succeeds :
  let w := Demo.world [] 0 in
  load_images w Demo.tl
  = (set_image_series Demo.tl [], ([EPrint "Loaded 0 files"], Ok tt)) /\
  snd (make_video w [] false "timelapse.mp4" Demo.tl)
  = ([EPrint "Loaded 0 files"; EPrint "Calling ffmpeg...";
      ESystem ("cd save && ffmpeg -f image2 -framerate 25 -pattern_type "
               ++ "sequence -start_number 1 -r 3 -i TIMELAPSE%01d.JPG "
               ++ "timelapse.mp4")%string;
      EPrint "Done."], Ok tt).
Proof. split; reflexivity. Qed.

Lemma render_video_drops_status_witness :
  exists command,
    ffmpeg_command Demo.tl "timelapse.mp4" = Ok command /\
    render_video (Demo.world Demo.photos 1) "timelapse.mp4" Demo.tl
    = ([EPrint "Calling ffmpeg..."; ESystem command; EPrint "Done."], Ok tt).
Proof.
  apply (render_video_drops_status (Demo.world Demo.photos 1) Demo.tl
           "timelapse.mp4" "save" eq_refl).
Defined.

(** The encoder exits with status 1, and [render_video] returns normally. *)
Lemma render_video_ignores_failure :
  let w := Demo.world Demo.photos 1 in
  let command :=
    ("cd save && ffmpeg -f image2 -framerate 25 -pattern_type sequence "
     ++ "-start_number 1 -r 3 -i TIMELAPSE%01d.JPG timelapse.mp4")%string in
  system w command = 1 /\
  render_video w "timelapse.mp4" Demo.tl
  = ([EPrint "Calling ffmpeg..."; ESystem command; EPrint "Done."], Ok tt).
Proof. split; reflexivity. Qed.



(** ** Decimal digits and zero padding *)

Section Digits.

Lemma digits_go_length fuel :
  forall n acc,
    0 <= n < 2 ^ Z.of_nat fuel -> (1 <= fuel)%nat ->
    exists k,
      String.length (Py.digits_go fuel n acc) = (k + String.length acc)%nat /\
      (1 <= k)%nat /\
      n < 10 ^ Z.of_nat k /\
      (k = 1%nat \/ 10 ^ (Z.of_nat k - 1) <= n).
Proof.
  induction fuel as [| fuel IH]; intros n acc Hn Hfuel; [lia |].
  cbn [Py.digits_go]. destruct (Z.ltb_spec n 10) as [Hlt | Hge].
  - exists 1%nat. simpl. repeat split; auto; lia.
  - assert (Hdiv : 0 <= n / 10 < 2 ^ Z.of_nat fuel).
    { split; [apply Z.div_pos; lia |].
      apply Z.div_lt_upper_bound; [lia |].
      rewrite Nat2Z.inj_succ, Z.pow_succ_r in Hn by lia. lia. }
    assert (Hone : 1 <= n / 10).
    { apply Z.div_le_lower_bound; lia. }
    assert (Hf : (1 <= fuel)%nat).
    { destruct fuel; [simpl in Hdiv; lia | lia]. }
    destruct (IH (n / 10) (String (Py.digit_char (n mod 10)) acc) Hdiv Hf)
      as (k & Hlen & Hk & Hup & Hlow).
    exists (S k). rewrite Hlen. simpl String.length.
    split; [lia |]. split; [lia |].
    rewrite Nat2Z.inj_succ.
    replace (Z.succ (Z.of_nat k) - 1) with (Z.of_nat k) by lia.
    rewrite Z.pow_succ_r by lia.
    pose proof (Z.div_mod n 10 ltac:(lia)) as Hdm.
    pose proof (Z.mod_pos_bound n 10 ltac:(lia)) as Hmod.
    split; [lia |]. right.
    destruct Hlow as [-> | Hlow].
    + simpl. lia.
    + replace (Z.of_nat k) with (Z.succ (Z.of_nat k - 1)) by lia.
      rewrite Z.pow_succ_r by lia. lia.
Qed.

(** [str(n)] has as many characters as [n] has decimal digits. *)
Lemma digits_length n :
  0 <= n ->
  exists k,
    String.length (Py.digits n) = k /\
    (1 <= k)%nat /\
    n < 10 ^ Z.of_nat k /\
    (k = 1%nat \/ 10 ^ (Z.of_nat k - 1) <= n).
Proof.
  intros Hn. unfold Py.digits.
  destruct (digits_go_length (S (Z.to_nat (Z.log2 n))) n EmptyString)
    as (k & Hlen & Hk); [| lia |].
  - split; [assumption |].
    rewrite Nat2Z.inj_succ, Z2Nat.id by apply Z.log2_nonneg.
    destruct (Z.eq_dec n 0) as [-> | Hnz]; [simpl; lia |].
    apply Z.log2_spec. lia.
  - exists k. rewrite Hlen. split; [simpl; lia | exact Hk].
Qed.

Lemma digits_length_mono i n :
  0 <= i <= n ->
  (String.length (Py.digits i) <= String.length (Py.digits n))%nat.
Proof.
  intros Hin.
  destruct (digits_length i ltac:(lia)) as (ki & -> & Hki & _ & Hlow).
  destruct (digits_length n ltac:(lia)) as (kn & -> & Hkn & Hup & _).
  destruct Hlow as [-> | Hlow]; [assumption |].
  assert (Hlt : 10 ^ (Z.of_nat ki - 1) < 10 ^ Z.of_nat kn) by lia.
  apply Z.pow_lt_mono_r_iff in Hlt; lia.
Qed.

Lemma repeat_char_length c n : String.length (Py.repeat_char c n) = n.
Proof. induction n; simpl; congruence. Qed.

Lemma string_length_app (a b : string) :
  String.length (a ++ b) = (String.length a + String.length b)%nat.
Proof. induction a; simpl; congruence. Qed.

Lemma string_append_assoc (a b c : string) :
  ((a ++ b) ++ c = a ++ (b ++ c))%string.
Proof. induction a; simpl; congruence. Qed.

(** The padded index of a frame of an [n]-frame series: zeros, then the
    digits of the index, as wide as [str(n)]. *)
Lemma format0_width i n :
  0 <= i <= n ->
  let width := String.length (Py.str n) in
  Py.format0 i width
  = (Py.repeat_char "0" (width - String.length (Py.str i)) ++ Py.str i)%string
  /\ String.length (Py.format0 i width) = width.
Proof.
  intros Hin width. unfold Py.format0, width, Py.str.
  destruct (Z.ltb_spec i 0); [lia |].
  destruct (Z.ltb_spec n 0); [lia |].
  split; [reflexivity |].
  rewrite string_length_app, repeat_char_length.
  pose proof (digits_length_mono i n Hin). lia.
Qed.
End Digits.


(** ** The names of the frames [render_images] writes *)

Section Rendering.
Context {F : Type} `{PyFloat F}.
Variable w : World F.
Variable self : TimeLapse F.

Lemma written_app (a b : list (event F)) :
  written (a ++ b) = written a ++ written b.
Proof.
  induction a as [| e a IH]; [reflexivity |].
  destruct e; simpl; now rewrite IH.
Qed.

(** The paths of the frames [start + 1 .. start + k] of a run whose frame
    names are [digits] wide. *)
Lemma frame_paths_step (digits : nat) (start : Z) (k : nat) :
  map (fun j => path_join (save_directory self)
                  (new_filename (start + Z.of_nat j) digits))
      (seq 0 (S k))
  = path_join (save_directory self) (new_filename start digits)
    :: map (fun j => path_join (save_directory self)
                       (new_filename (start + 1 + Z.of_nat j) digits))
           (seq 0 k).
Proof.
  cbn [seq map]. rewrite Z.add_0_r. f_equal.
  rewrite <- seq_shift, map_map. apply map_ext. intros j.
  do 2 f_equal. lia.
Qed.

Lemma draw_graph_index img image_obj :
  draw_graph w self img = Ok image_obj -> index image_obj = index img.
Proof.
  unfold draw_graph. intros Hd.
  destruct (image img) as [im |]; simpl in Hd; [| discriminate].
  destruct (draw_grid w self _) as [im' |]; simpl in Hd; [| discriminate].
  destruct (temps img) as [ts |]; simpl in Hd; [| discriminate].
  destruct (add_temps self _ ts) as [im'' |]; simpl in Hd; [| discriminate].
  inversion Hd. reflexivity.
Qed.

Lemma bind_lift_Ok {A B} (a : A) (k : A -> io F B) :
  bind (lift (Ok a)) k = k a.
Proof. unfold bind, lift. now destruct (k a). Qed.

Lemma bind_lift_Raise {A B} (e : exn) (k : A -> io F B) :
  bind (lift (Raise e)) k = ([], Raise e).
Proof. reflexivity. Qed.

Lemma bind_emit {B} (e : event F) (k : unit -> io F B) :
  bind (emit e) k = (e :: fst (k tt), snd (k tt)).
Proof. unfold bind, emit. now destruct (k tt). Qed.

(** The loop stopped before writing anything. *)
Ltac nothing_written :=
  exists 0%nat; simpl; split; [lia | split; [reflexivity | discriminate]].

Lemma render_copies_written digits (series : list (image_record F)) :
  forall start,
  exists k,
    (k <= List.length series)%nat /\
    map Ok (written (fst (render_copies w self digits start series)))
    = map (fun j => path_join (save_directory self)
                      (new_filename (start + Z.of_nat j) digits))
          (seq 0 k) /\
    (snd (render_copies w self digits start series) = Ok tt ->
     k = List.length series).
Proof.
  induction series as [| img rest IH]; intros start.
  - exists 0%nat. simpl. auto.
  - cbn [render_copies].
    destruct (path_join (images_directory self) (file_name img))
      as [src |] eqn:Esrc; [rewrite bind_lift_Ok | nothing_written].
    destruct (path_join (save_directory self) (new_filename start digits))
      as [dst |] eqn:Edst; [rewrite bind_lift_Ok | nothing_written].
    unfold copyfile.
    destruct (readable w src && writable w dst);
      [rewrite bind_emit | nothing_written].
    destruct (IH (start + 1)) as (k & Hk & Hw & Hall).
    exists (S k). rewrite frame_paths_step, Edst, <- Hw.
    simpl. repeat split; [lia |]. intros Hr. f_equal. auto.
Qed.

Lemma render_graphs_written digits (series : list (image_record F)) :
  forall start,
  (forall j r, nth_error series j = Some r -> index r = start + Z.of_nat j) ->
  exists k,
    (k <= List.length series)%nat /\
    map Ok (written (fst (snd (render_graphs w self digits series))))
    = map (fun j => path_join (save_directory self)
                      (new_filename (start + Z.of_nat j) digits))
          (seq 0 k) /\
    (snd (snd (render_graphs w self digits series)) = Ok tt ->
     k = List.length series).
Proof.
  induction series as [| img rest IH]; intros start Hindex.
  - exists 0%nat. simpl. auto.
  - cbn [render_graphs].
    destruct (draw_graph w self img) as [image_obj |] eqn:Edraw;
      [| nothing_written].
    rewrite (draw_graph_index _ _ Edraw), (Hindex 0%nat img eq_refl).
    rewrite Z.add_0_r.
    destruct (image image_obj) as [im |];
      [cbn [getitem]; rewrite bind_lift_Ok | nothing_written].
    destruct (path_join (save_directory self) (new_filename start digits))
      as [dst |] eqn:Edst; [rewrite bind_lift_Ok | nothing_written].
    unfold save.
    destruct (writable w dst); [| nothing_written].
    destruct (IH (start + 1)) as (k & Hk & Hw & Hall).
    { intros j r Hr. rewrite (Hindex (S j) r Hr). lia. }
    destruct (render_graphs w self digits rest) as [rest' [out r]].
    exists (S k). rewrite frame_paths_step, Edst, <- Hw.
    simpl in *. repeat split; [lia |]. intros Hr. f_equal. auto.
Qed.

Lemma path_join_Some a b : exists path, path_join (Some a) b = Ok path.
Proof.
  unfold path_join. destruct (prefix "/" b); [eauto |].
  destruct (String.eqb a "" || Py.endswith1 a "/")%bool; eauto.
Qed.

Lemma render_copies_all digits idir sdir (series : list (image_record F)) :
  images_directory self = Some idir ->
  save_directory self = Some sdir ->
  (forall path, readable w path = true) ->
  (forall path, writable w path = true) ->
  forall start,
  exists copies,
    render_copies w self digits start series = (copies, Ok tt) /\
    List.length copies = List.length series /\
    forall k r, nth_error series k = Some r ->
      exists src dst,
        path_join (Some idir) (file_name r) = Ok src /\
        path_join (Some sdir) (new_filename (start + Z.of_nat k) digits)
        = Ok dst /\
        nth_error copies k = Some (ECopy src dst).
Proof.
  intros Hidir Hsdir Hread Hwrite.
  induction series as [| img rest IH]; intros start.
  - exists []. repeat split. intros [| k] r; discriminate.
  - cbn [render_copies]. rewrite Hidir, Hsdir.
    destruct (path_join_Some idir (file_name img)) as (src & Hsrc).
    destruct (path_join_Some sdir (new_filename start digits)) as (dst & Hdst).
    rewrite Hsrc, Hdst, !bind_lift_Ok. unfold copyfile.
    rewrite Hread, Hwrite. cbn [andb]. rewrite bind_emit.
    destruct (IH (start + 1)) as (copies & Hrun & Hlen & Hnth).
    rewrite Hrun. cbn [fst snd].
    exists (ECopy src dst :: copies). split; [reflexivity |].
    split; [simpl; now rewrite Hlen |].
    intros [| k] r Hr; simpl in Hr.
    + inversion Hr; subst r. exists src, dst.
      rewrite Z.add_0_r. auto.
    + destruct (Hnth _ _ Hr) as (src' & dst' & Hs' & Hd' & Hk).
      exists src', dst'. split; [assumption |]. split; [| assumption].
      rewrite <- Hd'. do 2 f_equal. lia.
Qed.

Lemma render_images_plain idir sdir :
  images_directory self = Some idir ->
  save_directory self = Some sdir ->
  (forall path, readable w path = true) ->
  (forall path, writable w path = true) ->
  exists copies,
    render_images w false self = (self, (copies, Ok tt)) /\
    List.length copies = List.length (image_series self) /\
    forall k r, nth_error (image_series self) k = Some r ->
      exists src dst,
        path_join (Some idir) (file_name r) = Ok src /\
        path_join (Some sdir)
                  (new_filename (Z.of_nat (S k)) (max_digits self)) = Ok dst /\
        nth_error copies k = Some (ECopy src dst).
Proof.
  intros Hidir Hsdir Hread Hwrite.
  destruct (render_copies_all (max_digits self) idir sdir (image_series self)
              Hidir Hsdir Hread Hwrite 1) as (copies & Hrun & Hlen & Hnth).
  exists copies. unfold render_images. rewrite Hrun.
  split; [reflexivity |]. split; [exact Hlen |].
  intros k r Hr. destruct (Hnth k r Hr) as (src & dst & Hs & Hd & Hk).
  exists src, dst. split; [assumption |]. split; [| assumption].
  rewrite <- Hd. do 2 f_equal. lia.
Qed.

Lemma draw_graph_image img image_obj :
  draw_graph w self img = Ok image_obj -> exists im, image image_obj = Some im.
Proof.
  unfold draw_graph. intros Hd.
  destruct (image img) as [im |]; simpl in Hd; [| discriminate].
  destruct (draw_grid w self _) as [im' |]; simpl in Hd; [| discriminate].
  destruct (temps img) as [ts |]; simpl in Hd; [| discriminate].
  destruct (add_temps self _ ts) as [im'' |]; simpl in Hd; [| discriminate].
  inversion Hd. simpl. eauto.
Qed.

(** When every picture can be drawn and every frame written, the loop of
    the graph branch saves each drawn picture once, in order, under the
    name of its index, and hands back the drawn records. *)
Lemma render_graphs_all digits dir (series : list (image_record F)) :
  save_directory self = Some dir ->
  (forall path, writable w path = true) ->
  Forall (fun r => exists r', draw_graph w self r = Ok r') series ->
  exists saves,
    snd (render_graphs w self digits series) = (saves, Ok tt) /\
    List.length saves = List.length series /\
    forall k r, nth_error series k = Some r ->
      exists r' im path,
        draw_graph w self r = Ok r' /\
        image r' = Some im /\
        path_join (Some dir) (new_filename (index r) digits) = Ok path /\
        nth_error saves k = Some (ESave path im) /\
        nth_error (fst (render_graphs w self digits series)) k = Some r'.
Proof.
  intros Hdir Hwrite Hdraw.
  induction Hdraw as [| img rest (image_obj & Himg) _ IH].
  - exists []. repeat split. intros [| k] r; discriminate.
  - cbn [render_graphs]. rewrite Himg.
    destruct (draw_graph_image _ _ Himg) as (im & Him).
    rewrite Him. cbn [getitem]. rewrite bind_lift_Ok, Hdir.
    destruct (path_join_Some dir (new_filename (index image_obj) digits))
      as (path & Hpath).
    rewrite Hpath, bind_lift_Ok. unfold save. rewrite Hwrite. cbn [emit].
    destruct IH as (saves & Hrun & Hlen & Hnth).
    destruct (render_graphs w self digits rest) as [rest' [out r]].
    cbn [fst snd] in *. inversion Hrun; subst out r.
    exists (ESave path im :: saves). split; [reflexivity |].
    split; [simpl; now rewrite Hlen |].
    intros [| k] r0 Hr0; simpl in Hr0.
    + inversion Hr0; subst r0. exists image_obj, im, path.
      rewrite <- (draw_graph_index _ _ Himg). auto.
    + destruct (Hnth _ _ Hr0) as (r' & im' & path' & H1 & H2 & H3 & H4 & H5).
      exists r', im', path'. auto.
Qed.

(** C8. On a series numbered 1..N as [load_images] leaves it, the files
    [render_images] writes, with or without the graph, are in order the
    frames 1, 2, ... under the save directory, all N of them when the call
    returns normally.  With the graph, when every picture can be drawn
    and every frame written, the call returns normally and saves the
    drawn picture of each record once, in order, under the name of its
    index; without the graph, when every file can be read and written,
    it copies the file of each record once, in order, to that name.  The
    name of frame [i] is TIMELAPSE, then zeros followed by the digits of
    [i], as wide together as the digits of N, then .JPG.  The width is
    1, 2, 2, 3, 3, 4 for 9, 10, 99, 100, 999 and 1000 frames. *)
Theorem frame_filenames (add_graph : bool) :
  (forall j r, nth_error (image_series self) j = Some r ->
               index r = Z.of_nat (S j)) ->
  let n := List.length (image_series self) in
  let width := String.length (Py.str (Z.of_nat n)) in
  let run := render_images w add_graph self in
  (exists k,
     (k <= n)%nat /\
     map Ok (written (fst (snd run)))
     = map (fun j => path_join (save_directory self)
                       (new_filename (Z.of_nat (S j)) width))
           (seq 0 k) /\
     (snd (snd run) = Ok tt -> k = n)) /\
  (forall dir,
     add_graph = true ->
     save_directory self = Some dir ->
     (forall path, writable w path = true) ->
     Forall (fun r => exists r', draw_graph w self r = Ok r')
            (image_series self) ->
     exists saves,
       snd run
       = (EPrint "Generating graphs on all frames..." :: saves, Ok tt) /\
       List.length saves = n /\
       forall k r, nth_error (image_series self) k = Some r ->
         exists r' im path,
           draw_graph w self r = Ok r' /\
           image r' = Some im /\
           path_join (Some dir) (new_filename (Z.of_nat (S k)) width)
           = Ok path /\
           nth_error saves k = Some (ESave path im) /\
           nth_error (image_series (fst run)) k = Some r') /\
  (forall idir sdir,
     add_graph = false ->
     images_directory self = Some idir ->
     save_directory self = Some sdir ->
     (forall path, readable w path = true) ->
     (forall path, writable w path = true) ->
     exists copies,
       run = (self, (copies, Ok tt)) /\
       List.length copies = n /\
       forall k r, nth_error (image_series self) k = Some r ->
         exists src dst,
           path_join (Some idir) (file_name r) = Ok src /\
           path_join (Some sdir) (new_filename (Z.of_nat (S k)) width)
           = Ok dst /\
           nth_error copies k = Some (ECopy src dst)) /\
  (forall i, 1 <= i <= Z.of_nat n ->
     new_filename i width
     = ("TIMELAPSE"
        ++ Py.repeat_char "0" (width - String.length (Py.str i))
        ++ Py.str i ++ ".JPG")%string /\
     String.length (Py.format0 i width) = width) /\
  map (fun count => String.length (Py.str count)) [9; 10; 99; 100; 999; 1000]
  = [1; 2; 2; 3; 3; 4]%nat.
Proof.
  intros Hindex n width run.
  split; [| split; [| split; [| split; [| reflexivity]]]].
  - unfold run, render_images, max_digits, len. fold n. fold width.
    destruct add_graph.
    + destruct (render_graphs_written width (image_series self) 1)
        as (k & Hk & Hw & Hall).
      { intros j r Hr. rewrite (Hindex j r Hr). lia. }
      destruct (render_graphs w self width (image_series self))
        as [series [out r]].
      exists k. cbn [fst snd written] in *.
      split; [exact Hk |]. split; [| exact Hall].
      rewrite Hw. apply map_ext. intros j.
      replace (1 + Z.of_nat j) with (Z.of_nat (S j)) by lia. reflexivity.
    + destruct (render_copies_written width (image_series self) 1)
        as (k & Hk & Hw & Hall).
      exists k. cbn [fst snd]. split; [exact Hk |]. split; [| exact Hall].
      rewrite Hw. apply map_ext. intros j.
      replace (1 + Z.of_nat j) with (Z.of_nat (S j)) by lia. reflexivity.
  - intros dir -> Hdir Hwrite Hdraw.
    destruct (render_graphs_all width dir (image_series self) Hdir Hwrite Hdraw)
      as (saves & Hrun & Hlen & Hnth).
    unfold run, render_images, max_digits, len. fold n. fold width.
    destruct (render_graphs w self width (image_series self))
      as [series [out r]].
    cbn [fst snd] in *. inversion Hrun; subst out r.
    exists saves. split; [reflexivity |]. split; [exact Hlen |].
    intros k r Hr.
    destruct (Hnth _ _ Hr) as (r' & im & path & H1 & H2 & H3 & H4 & H5).
    exists r', im, path. rewrite <- (Hindex _ _ Hr).
    cbn [image_series set_image_series set_computed]. auto.
  - intros idir sdir -> Hidir Hsdir Hread Hwrite.
    destruct (render_images_plain idir sdir Hidir Hsdir Hread Hwrite)
      as (copies & Hrun & Hlen & Hnth).
    exists copies. split; [exact Hrun |]. split; [exact Hlen |].
    intros k r Hr. destruct (Hnth _ _ Hr) as (src & dst & H1 & H2 & H3).
    exists src, dst. split; [exact H1 |]. split; [| exact H3].
    rewrite <- H2. unfold max_digits, len. reflexivity.
  - intros i Hi.
    assert (Hrange : 0 <= i <= Z.of_nat n) by (clear - Hi; lia).
    destruct (format0_width i (Z.of_nat n) Hrange) as [Hfmt Hlen].
    fold width in Hfmt, Hlen. split; [| exact Hlen].
    unfold new_filename. rewrite Hfmt.
    now rewrite string_append_assoc.
Qed.
End Rendering.

Lemma frames_nth (n : nat) :
  forall start j r,
    nth_error (Demo.frames n start) j = Some r -> index r = start + Z.of_nat j.
Proof.
  induction n as [| n IH]; intros start [| j] r Hr; simpl in Hr;
    try discriminate.
  - inversion Hr. simpl. lia.
  - rewrite (IH _ _ _ Hr). lia.
Qed.

(** A series is numbered 1, 2, ... when its indices read so. *)
Lemma numbered_from {F} (series : list (image_record F)) :
  forall start,
    map index series
    = map (fun j => Z.of_nat (S j)) (seq start (List.length series)) ->
    forall j r, nth_error series j = Some r ->
                index r = Z.of_nat (S (start + j)).
Proof.
  induction series as [| img rest IH]; intros start Hmap [| j] r Hr;
    simpl in Hr; try discriminate; simpl in Hmap; inversion Hmap.
  - inversion Hr; subst r. now rewrite Nat.add_0_r.
  - rewrite (IH (S start) H1 j r Hr). f_equal. lia.
Qed.

Lemma numbered_series {F} (series : list (image_record F)) :
  map index series
  = map (fun j => Z.of_nat (S j)) (seq 0 (List.length series)) ->
  forall j r, nth_error series j = Some r -> index r = Z.of_nat (S j).
Proof.
  intros Hmap j r Hr. exact (numbered_from series 0%nat Hmap j r Hr).
Qed.

(** Every record can be drawn when the check of each one passes. *)
Lemma drawable_series {F} `{PyFloat F} (w : World F) (self : TimeLapse F)
      (series : list (image_record F)) :
  forallb (fun r => match draw_graph w self r with
                    | Ok _ => true
                    | Raise _ => false
                    end) series = true ->
  Forall (fun r => exists r', draw_graph w self r = Ok r') series.
Proof.
  intros Hall. apply Forall_forall. intros r Hr.
  rewrite forallb_forall in Hall. specialize (Hall r Hr).
  destruct (draw_graph w self r) as [r' | e]; [eauto | discriminate].
Qed.

Lemma frame_filenames_witness :
  let self := set_image_series Demo.tl (Demo.frames 125 1) in
  let run := render_images (Demo.world Demo.photos 0) false self in
  let drawn := render_images Demo.hourly true Demo.graphed in
  ((exists k,
      (k <= 125)%nat /\
      map Ok (written (fst (snd run)))
      = map (fun j => path_join (Some "save")
                        (new_filename (Z.of_nat (S j)) 3))
            (seq 0 k) /\
      (snd (snd run) = Ok tt -> k = 125%nat)) /\
   (exists copies,
      run = (self, (copies, Ok tt)) /\
      List.length copies = 125%nat /\
      forall k r, nth_error (image_series self) k = Some r ->
        exists src dst,
          path_join (Some "photos") (file_name r) = Ok src /\
          path_join (Some "save") (new_filename (Z.of_nat (S k)) 3)
          = Ok dst /\
          nth_error copies k = Some (ECopy src dst)) /\
   nth_error (fst (snd run)) 0
   = Some (ECopy "photos/1" "save/TIMELAPSE001.JPG") /\
   nth_error (fst (snd run)) 9
   = Some (ECopy "photos/10" "save/TIMELAPSE010.JPG") /\
   nth_error (fst (snd run)) 124
   = Some (ECopy "photos/125" "save/TIMELAPSE125.JPG")) /\
  ((exists k,
      (k <= 12)%nat /\
      map Ok (written (fst (snd drawn)))
      = map (fun j => path_join (Some "save")
                        (new_filename (Z.of_nat (S j)) 2))
            (seq 0 k) /\
      (snd (snd drawn) = Ok tt -> k = 12%nat)) /\
   (exists saves,
      snd drawn
      = (EPrint "Generating graphs on all frames..." :: saves, Ok tt) /\
      List.length saves = 12%nat /\
      forall k r, nth_error (image_series Demo.graphed) k = Some r ->
        exists r' im path,
          draw_graph Demo.hourly Demo.graphed r = Ok r' /\
          image r' = Some im /\
          path_join (Some "save") (new_filename (Z.of_nat (S k)) 2)
          = Ok path /\
          nth_error saves k = Some (ESave path im) /\
          nth_error (image_series (fst drawn)) k = Some r') /\
   map file_name (image_series Demo.graphed)
   = ["10.jpg"; "11.jpg"; "12.jpg"; "13.jpg"; "14.jpg"; "15.jpg";
      "16.jpg"; "17.jpg"; "18.jpg"; "19.jpg"; "20.jpg"; "21.jpg"] /\
   temperatures (image_series Demo.graphed)
   = [28; 25; 23; 22; 24; 30; 34; 37; 39; 38; 35; 31] /\
   written (fst (snd drawn))
   = ["save/TIMELAPSE01.JPG"; "save/TIMELAPSE02.JPG";
      "save/TIMELAPSE03.JPG"; "save/TIMELAPSE04.JPG";
      "save/TIMELAPSE05.JPG"; "save/TIMELAPSE06.JPG";
      "save/TIMELAPSE07.JPG"; "save/TIMELAPSE08.JPG";
      "save/TIMELAPSE09.JPG"; "save/TIMELAPSE10.JPG";
      "save/TIMELAPSE11.JPG"; "save/TIMELAPSE12.JPG"]).
Proof.
  intros self run drawn. split.
  - assert (Hindex : forall j r, nth_error (image_series self) j = Some r ->
                                 index r = Z.of_nat (S j)).
    { intros j r Hr. apply frames_nth in Hr. lia. }
    destruct (frame_filenames (Demo.world Demo.photos 0) self false Hindex)
      as (Hprefix & _ & Hplain & _).
    split; [exact Hprefix |]. split.
    + apply (Hplain "photos" "save"); reflexivity.
    + repeat split; vm_compute; reflexivity.
  - assert (Hindex : forall j r,
               nth_error (image_series Demo.graphed) j = Some r ->
               index r = Z.of_nat (S j)).
    { apply numbered_series. vm_compute. reflexivity. }
    destruct (frame_filenames Demo.hourly Demo.graphed true Hindex)
      as (Hprefix & Hgraph & _).
    split; [exact Hprefix |]. split.
    + apply (Hgraph "save"); try reflexivity.
      apply drawable_series. vm_compute. reflexivity.
    + repeat split; vm_compute; reflexivity.
Defined.


(** ** Double precision on integers below 2^53

    Integers of magnitude below 2^53 convert to doubles without rounding,
    and so do their differences: the only rounding in the quotient of two
    such integers is that of the division. *)

Section Binary64.

Lemma digits2_pos_iter_xO m n :
  digits2_pos (Pos.iter xO m n) = (digits2_pos m + n)%positive.
Proof.
  revert m. induction n using Pos.peano_ind; intros m.
  - simpl. lia.
  - rewrite Pos.iter_succ. simpl. rewrite IHn. lia.
Qed.

Lemma iter_xO_value m n : Zpos (Pos.iter xO m n) = Zpos m * 2 ^ Zpos n.
Proof.
  revert m. induction n using Pos.peano_ind; intros m.
  - simpl. lia.
  - rewrite Pos.iter_succ. rewrite Pos2Z.inj_xO, IHn.
    rewrite Pos2Z.inj_succ, Z.pow_succ_r by lia. lia.
Qed.

Lemma digits2_bounds m :
  2 ^ (Zpos (digits2_pos m) - 1) <= Zpos m < 2 ^ Zpos (digits2_pos m).
Proof.
  induction m; simpl digits2_pos.
  - rewrite Pos2Z.inj_succ. replace (Z.succ (Zpos (digits2_pos m)) - 1) with (Z.succ (Zpos (digits2_pos m) - 1)) by lia.
    rewrite !Z.pow_succ_r by lia. lia.
  - rewrite Pos2Z.inj_succ. replace (Z.succ (Zpos (digits2_pos m)) - 1) with (Z.succ (Zpos (digits2_pos m) - 1)) by lia.
    rewrite !Z.pow_succ_r by lia. lia.
  - simpl. lia.
Qed.

Lemma shr_1_double m : 0 < m -> shr_1 (B64.rec0 (2 * m)) = B64.rec0 m.
Proof. destruct m; try lia. intros _. reflexivity. Qed.

Lemma iter_shr_exact p : forall m, 0 < m ->
  iter_pos shr_1 p (B64.rec0 (m * 2 ^ Zpos p)) = B64.rec0 m.
Proof.
  induction p; intros m Hm.
  - cbn [iter_pos]. rewrite Pos2Z.inj_xI.
    replace (m * 2 ^ (2 * Zpos p + 1)) with (2 * ((m * 2 ^ Zpos p) * 2 ^ Zpos p)).
    + rewrite shr_1_double by (apply Z.mul_pos_pos; [apply Z.mul_pos_pos|]; lia).
      rewrite IHp by (apply Z.mul_pos_pos; lia). apply IHp; lia.
    + rewrite Z.pow_add_r, Z.pow_1_r by lia. replace (2 * Zpos p) with (Zpos p + Zpos p) by lia. rewrite Z.pow_add_r by lia. ring.
  - cbn [iter_pos]. change (Z.pos p~0) with (2 * Z.pos p).
    replace (m * 2 ^ (2 * Zpos p)) with ((m * 2 ^ Zpos p) * 2 ^ Zpos p).
    + rewrite IHp by (apply Z.mul_pos_pos; lia). apply IHp; lia.
    + replace (2 * Zpos p) with (Zpos p + Zpos p) by lia. rewrite Z.pow_add_r by lia. ring.
  - cbn [iter_pos]. replace (m * 2 ^ 1) with (2 * m) by lia. now apply shr_1_double.
Qed.

Lemma binary_round_aux_id s m e :
  Zpos (digits2_pos m) = 53 -> -1074 <= e <= 971 ->
  binary_round_aux B64.prec B64.emax s (Zpos m) e loc_Exact = S754_finite s m e.
Proof.
  intros Hd He. unfold binary_round_aux, shr_fexp, fexp, emin, B64.prec, B64.emax.
  cbn [Zdigits2 shr_record_of_loc]. rewrite Hd.
  replace (Z.max (53 + e - 53) (3 - 1024 - 53) - e) with 0 by lia.
  cbn [shr shr_m loc_of_shr_record round_nearest_even Zdigits2 shr_record_of_loc].
  rewrite Hd.
  replace (Z.max (53 + e - 53) (3 - 1024 - 53) - e) with 0 by lia.
  cbn [shr shr_m].
  replace (e <=? 1024 - 53) with true by (symmetry; apply Z.leb_le; lia).
  reflexivity.
Qed.

Lemma digits2_unique p n :
  2 ^ (n - 1) <= Zpos p < 2 ^ n -> Zpos (digits2_pos p) = n.
Proof.
  intros [Hlo Hhi]. pose proof (digits2_bounds p) as [Dlo Dhi].
  assert (0 < n).
  { destruct (Z.ltb_spec 0 n); [assumption |].
    destruct (Z.eq_dec n 0) as [-> | Hn0]; [simpl in Hhi; lia |].
    rewrite (Z.pow_neg_r 2 n) in Hhi by lia. lia. }
  assert (Zpos (digits2_pos p) - 1 < n).
  { apply (Z.pow_lt_mono_r_iff 2); lia. }
  assert (n - 1 < Zpos (digits2_pos p)).
  { apply (Z.pow_lt_mono_r_iff 2); lia. }
  lia.
Qed.

Lemma digits2_shift m mk k :
  0 <= k -> Zpos mk = Zpos m * 2 ^ k ->
  Zpos (digits2_pos mk) = Zpos (digits2_pos m) + k.
Proof.
  intros Hk Hmk. apply digits2_unique. rewrite Hmk.
  pose proof (digits2_bounds m) as [Dlo Dhi].
  replace (Zpos (digits2_pos m) + k - 1) with ((Zpos (digits2_pos m) - 1) + k) by lia.
  rewrite !Z.pow_add_r by lia.
  assert (0 < 2 ^ k) by (apply Z.pow_pos_nonneg; lia).
  split; nia.
Qed.

Lemma binary_round_shifted s m mk k :
  0 <= k -> Zpos mk = Zpos m * 2 ^ k ->
  Zpos (digits2_pos m) <= 53 ->
  binary_round B64.prec B64.emax s mk (- k)
  = S754_finite s (Z.to_pos (Zpos m * 2 ^ (53 - Zpos (digits2_pos m))))
                (Zpos (digits2_pos m) - 53).
Proof.
  intros Hk Hmk Hd.
  pose proof (digits2_shift m mk k Hk Hmk) as Hdk.
  set (d := Zpos (digits2_pos m)) in *.
  assert (Hdpos : 0 < d) by (unfold d; lia).
  unfold binary_round, fexp, emin, B64.prec, B64.emax. rewrite Hdk.
  replace (Z.max (d + k + - k - 53) (3 - 1024 - 53)) with (d - 53) by lia.
  unfold shl_align.
  destruct (d - 53 - - k) as [| n | q] eqn:Eshift.
  - (* already 53 bits *)
    assert (k = 53 - d) by lia. subst k.
    change (binary_round_aux 53 1024) with (binary_round_aux B64.prec B64.emax).
    rewrite binary_round_aux_id by lia.
    f_equal; [| lia]. rewrite <- Hmk. reflexivity.
  - (* more than 53 bits: the low bits are zero *)
    unfold binary_round_aux, shr_fexp, fexp, emin.
    cbn [Zdigits2 shr_record_of_loc]. rewrite Hdk.
    replace (Z.max (d + k + - k - 53) (3 - 1024 - 53) - - k) with (Zpos n) by lia.
    cbn [shr].
    set (M := Zpos m * 2 ^ (53 - d)).
    assert (HM : 0 < M) by (apply Z.mul_pos_pos; [lia | apply Z.pow_pos_nonneg; lia]).
    assert (Hsplit : Zpos mk = M * 2 ^ Zpos n).
    { rewrite Hmk. unfold M. rewrite <- Z.mul_assoc, <- Z.pow_add_r by lia.
      do 2 f_equal. lia. }
    rewrite Hsplit. fold (B64.rec0 (M * 2 ^ Zpos n)).
    rewrite iter_shr_exact by assumption.
    cbn [B64.rec0 shr_m loc_of_shr_record round_nearest_even shr_record_of_loc].
    assert (HdM : Zdigits2 M = 53).
    { destruct M as [| pM |] eqn:EM; try lia. cbn [Zdigits2].
      replace 53 with (d + (53 - d)) by lia.
      apply (digits2_shift m pM (53 - d)); [lia | now rewrite <- EM]. }
    rewrite HdM.
    replace (Z.max (53 + (- k + Zpos n) - 53) (3 - 1024 - 53) - (- k + Zpos n)) with 0 by lia.
    cbn [shr shr_m].
    destruct M as [| pM |] eqn:EM; try lia.
    replace (- k + Zpos n <=? 1024 - 53) with true by (symmetry; apply Z.leb_le; lia).
    f_equal. lia.
  - (* fewer than 53 bits: shift left *)
    change (binary_round_aux 53 1024) with (binary_round_aux B64.prec B64.emax).
    rewrite binary_round_aux_id.
    + f_equal. apply Pos2Z.inj. rewrite iter_xO_value, Hmk.
      rewrite Z2Pos.id by (apply Z.mul_pos_pos; [lia | apply Z.pow_pos_nonneg; lia]).
      rewrite <- Z.mul_assoc, <- Z.pow_add_r by lia. do 2 f_equal. lia.
    + rewrite digits2_pos_iter_xO, Pos2Z.inj_add, Hdk. lia.
    + lia.
Qed.

Lemma small_digits m : Zpos m < 2 ^ 53 -> Zpos (digits2_pos m) <= 53.
Proof.
  intros Hm. pose proof (digits2_bounds m) as [Dlo _].
  assert (Zpos (digits2_pos m) - 1 < 53); [| lia].
  apply (Z.pow_lt_mono_r_iff 2); lia.
Qed.

Lemma binary_normalize_shifted z k :
  0 <= k -> Z.abs z < 2 ^ 53 ->
  binary_normalize B64.prec B64.emax (z * 2 ^ k) (- k) false = B64.exact z.
Proof.
  intros Hk Hz. unfold B64.exact.
  assert (H2k : 0 < 2 ^ k) by (apply Z.pow_pos_nonneg; lia).
  destruct z as [| m | m].
  - reflexivity.
  - destruct (Zpos m * 2 ^ k) as [| mk | mk] eqn:Emk; try lia.
    cbn [binary_normalize].
    rewrite (binary_round_shifted false m mk k Hk (eq_sym Emk)) by (apply small_digits; lia).
    change 0 with (- 0).
    rewrite (binary_round_shifted false m m 0); try lia.
    + reflexivity.
    + apply small_digits; lia.
  - destruct (Zneg m * 2 ^ k) as [| mk | mk] eqn:Emk; try lia.
    cbn [binary_normalize].
    assert (Emk' : Zpos mk = Zpos m * 2 ^ k) by lia.
    rewrite (binary_round_shifted true m mk k Hk Emk') by (apply small_digits; lia).
    change 0 with (- 0).
    rewrite (binary_round_shifted true m m 0); try lia.
    + reflexivity.
    + apply small_digits; lia.
Qed.

Lemma exact_finite z :
  z <> 0 -> Z.abs z < 2 ^ 53 ->
  exists s M e,
    B64.exact z = S754_finite s M e /\ -52 <= e <= 0 /\
    cond_Zopp s (Zpos M) = z * 2 ^ (- e).
Proof.
  intros Hz Hab. unfold B64.exact.
  destruct z as [| m | m]; [contradiction | |]; cbn [binary_normalize];
    change 0 with (- 0);
    rewrite (binary_round_shifted _ m m 0) by (try apply small_digits; lia);
    pose proof (small_digits m ltac:(lia)) as Hd;
    do 3 eexists; (split; [reflexivity |]); (split; [lia |]);
    rewrite Z2Pos.id by (apply Z.mul_pos_pos; [lia | apply Z.pow_pos_nonneg; lia]);
    cbn [cond_Zopp]; replace (- (Zpos (digits2_pos m) - 53)) with (53 - Zpos (digits2_pos m)) by lia; lia.
Qed.

Lemma shl_align_value mx ex ez :
  ez <= ex -> Zpos (fst (shl_align mx ex ez)) = Zpos mx * 2 ^ (ex - ez).
Proof.
  intros Hle. unfold shl_align.
  destruct (ez - ex) as [| p | p] eqn:E; try lia.
  - replace (ex - ez) with 0 by lia. simpl. lia.
  - cbn [fst]. rewrite iter_xO_value. do 2 f_equal. lia.
Qed.

Lemma cond_Zopp_mul s a b : cond_Zopp s a * b = cond_Zopp s (a * b).
Proof. destruct s; simpl; lia. Qed.

Lemma exact_opp z : z <> 0 -> Z.abs z < 2 ^ 53 -> B64.exact (- z) = SFopp (B64.exact z).
Proof.
  intros Hnz Hz. unfold B64.exact.
  destruct z as [| m | m]; [contradiction | |]; cbn [Z.opp binary_normalize];
    change 0 with (- 0);
    rewrite !(binary_round_shifted _ m m 0) by (try apply small_digits; lia);
    reflexivity.
Qed.

Lemma SFsub_exact a b :
  Z.abs a < 2 ^ 53 -> Z.abs b < 2 ^ 53 -> Z.abs (a - b) < 2 ^ 53 ->
  SFsub B64.prec B64.emax (B64.exact a) (B64.exact b) = B64.exact (a - b).
Proof.
  intros Ha Hb Hab.
  destruct (Z.eq_dec b 0) as [-> | Hb0].
  - rewrite Z.sub_0_r. change (B64.exact 0) with (S754_zero false).
    destruct (B64.exact a) as [[|] | | |]; reflexivity.
  - destruct (exact_finite b Hb0 Hb) as (sb & Mb & eb & Eb & Heb & Vb).
    destruct (Z.eq_dec a 0) as [-> | Ha0].
    + change (0 - b) with (- b). rewrite (exact_opp b Hb0 Hb).
      change (B64.exact 0) with (S754_zero false). rewrite Eb. reflexivity.
    + destruct (exact_finite a Ha0 Ha) as (sa & Ma & ea & Ea & Hea & Va).
      rewrite Ea, Eb. cbn [SFsub].
      set (ez := Z.min ea eb).
      assert (Hza : cond_Zopp sa (Zpos (fst (shl_align Ma ea ez)))
                    = a * 2 ^ (- ez)).
      { rewrite shl_align_value by (unfold ez; lia).
        rewrite <- cond_Zopp_mul, Va, <- Z.mul_assoc, <- Z.pow_add_r
          by (unfold ez; lia).
        do 2 f_equal. lia. }
      assert (Hzb : cond_Zopp sb (Zpos (fst (shl_align Mb eb ez)))
                    = b * 2 ^ (- ez)).
      { rewrite shl_align_value by (unfold ez; lia).
        rewrite <- cond_Zopp_mul, Vb, <- Z.mul_assoc, <- Z.pow_add_r
          by (unfold ez; lia).
        do 2 f_equal. lia. }
      rewrite Hza, Hzb, <- Z.mul_sub_distr_r.
      replace ez with (- - ez) at 2 by lia.
      apply binary_normalize_shifted; [unfold ez; lia | assumption].
Qed.

Lemma of_int_exact z : Z.abs z < 2 ^ 53 -> B64.of_int z = Ok (B64.exact z).
Proof.
  intros Hz. unfold B64.of_int.
  destruct (Z.eq_dec z 0) as [-> | Hnz]; [reflexivity |].
  destruct (exact_finite z Hnz Hz) as (s & M & e & -> & _). reflexivity.
Qed.
End Binary64.


(** ** Graph geometry in double precision *)

Section GeometryEdges.

Lemma exact_nonzero z :
  z <> 0 -> Z.abs z < 2 ^ 53 ->
  forall x, B64.div x (B64.exact z)
            = Ok (SFdiv B64.prec B64.emax x (B64.exact z)).
Proof.
  intros Hz Hb x. destruct (exact_finite z Hz Hb) as (s & M & e & -> & _).
  reflexivity.
Qed.

(** In double precision, on integers below 2^53,
    [compute_pixels_per_temp] returns the double that Python's
    [(graph_height - 2 * padding) / (deg_max - deg_min)] denotes: the
    conversions and the subtraction are exact, the division rounds once. *)
Theorem pixels_per_degree_binary64 (self : TimeLapse spec_float) (lo hi : Z) :
  deg_min self = Some lo ->
  deg_max self = Some hi ->
  hi <> lo ->
  Z.abs lo < 2 ^ 53 -> Z.abs hi < 2 ^ 53 -> Z.abs (hi - lo) < 2 ^ 53 ->
  Z.abs (graph_height self - 2 * padding self) < 2 ^ 53 ->
  let quotient :=
    SFdiv B64.prec B64.emax
          (B64.exact (graph_height self - 2 * padding self))
          (B64.exact (hi - lo)) in
  compute_pixels_per_temp self = Ok quotient /\
  num_truediv (NInt (graph_height self - 2 * padding self)) (NInt (hi - lo))
  = Ok (NFloat quotient).
Proof.
  intros Hlo Hhi Hne Blo Bhi Bd Bh quotient.
  assert (Hdiv := exact_nonzero (hi - lo) ltac:(lia) Bd).
  split.
  - unfold compute_pixels_per_temp, float_attr. rewrite Hhi, Hlo.
    cbn [float_of_int binary64 fsub fdiv].
    rewrite (of_int_exact hi Bhi), (of_int_exact lo Blo).
    cbn [rbind]. rewrite (SFsub_exact hi lo Bhi Blo Bd).
    replace (graph_height self - padding self * 2)
      with (graph_height self - 2 * padding self) by lia.
    rewrite (of_int_exact _ Bh). cbn [rbind]. apply Hdiv.
  - unfold num_truediv. cbn [as_float float_of_int binary64 fdiv].
    rewrite (of_int_exact _ Bh), (of_int_exact _ Bd). cbn [rbind].
    rewrite Hdiv. reflexivity.
Qed.

Lemma equal_extremes_divide_by_zero (self : TimeLapse spec_float) t :
  Z.abs (graph_height self - 2 * padding self) < 2 ^ 53 ->
  Z.abs t < 2 ^ 53 ->
  deg_min self = Some t -> deg_max self = Some t ->
  compute_pixels_per_temp self = Raise ZeroDivisionError.
Proof.
  intros Bh Bt Hlo Hhi.
  unfold compute_pixels_per_temp, float_attr. rewrite Hhi, Hlo.
  cbn [float_of_int binary64 fsub fdiv].
  rewrite (of_int_exact t Bt). cbn [rbind].
  rewrite (SFsub_exact t t Bt Bt) by (rewrite Z.sub_diag; simpl; lia).
  rewrite Z.sub_diag.
  replace (graph_height self - padding self * 2)
    with (graph_height self - 2 * padding self) by lia.
  rewrite (of_int_exact _ Bh). reflexivity.
Qed.

(** A series with a single temperature, or one whose extremes were never
    computed, has no vertical scale: [compute_pixels_per_temp] raises
    [ZeroDivisionError] when [deg_max] equals [deg_min], and [TypeError]
    when [deg_max] is still [None]. *)
Theorem pixels_per_degree_degenerate (self : TimeLapse spec_float) :
  Z.abs (graph_height self - 2 * padding self) < 2 ^ 53 ->
  (forall t, Z.abs t < 2 ^ 53 ->
             deg_min self = Some t -> deg_max self = Some t ->
             compute_pixels_per_temp self = Raise ZeroDivisionError) /\
  (deg_max self = None -> compute_pixels_per_temp self = Raise TypeError).
Proof.
  intros Bh. split.
  - intros t Bt Hlo Hhi. now apply (equal_extremes_divide_by_zero self t).
  - intros Hhi. unfold compute_pixels_per_temp, float_attr.
    now rewrite Hhi.
Qed.

(** A series of one picture has no horizontal spacing: [get_x_point]
    divides by [len(image_series) - 1] and raises [ZeroDivisionError] at
    every position. *)
Theorem x_point_single_frame (self : TimeLapse spec_float) (i : Z) :
  List.length (image_series self) = 1%nat ->
  Z.abs (graph_width self - 2 * padding self) < 2 ^ 53 ->
  get_x_point self i = Raise ZeroDivisionError.
Proof.
  intros HN Bw. unfold get_x_point, len. rewrite HN.
  cbn [float_of_int binary64 fdiv].
  replace (graph_width self - padding self * 2)
    with (graph_width self - 2 * padding self) by lia.
  rewrite (of_int_exact _ Bw). reflexivity.
Qed.
End GeometryEdges.

Lemma pixels_per_degree_binary64_witness :
  let self := set_deg (@init spec_float) (Some (-7)) (Some 96) in
  compute_pixels_per_temp self
  = Ok (SFdiv B64.prec B64.emax (B64.exact 530) (B64.exact 103)) /\
  num_truediv (NInt 530) (NInt 103)
  = Ok (NFloat (SFdiv B64.prec B64.emax (B64.exact 530) (B64.exact 103))).
Proof.
  intros self.
  apply (pixels_per_degree_binary64 self (-7) 96 eq_refl eq_refl);
    try discriminate; reflexivity.
Defined.

Lemma pixels_per_degree_degenerate_witness :
  compute_pixels_per_temp (set_deg (@init spec_float) (Some 54) (Some 54))
  = Raise ZeroDivisionError.
Proof.
  apply (proj1 (pixels_per_degree_degenerate
                  (set_deg (@init spec_float) (Some 54) (Some 54))
                  eq_refl) 54 eq_refl eq_refl eq_refl).
Defined.

Lemma x_point_single_frame_witness :
  get_x_point (set_image_series Demo.tl (Demo.frames 1 1)) 0
  = Raise ZeroDivisionError.
Proof.
  apply (x_point_single_frame (set_image_series Demo.tl (Demo.frames 1 1)) 0
           eq_refl eq_refl).
Defined.


(** ** The scale and the abscissa as the program computes them *)

Section GeometryFormulas.
Variable self : TimeLapse spec_float.

Lemma compute_pixels_per_temp_b64 (lo hi : Z) :
  deg_min self = Some lo ->
  deg_max self = Some hi ->
  hi <> lo ->
  Z.abs lo < 2 ^ 53 -> Z.abs hi < 2 ^ 53 -> Z.abs (hi - lo) < 2 ^ 53 ->
  Z.abs (graph_height self - 2 * padding self) < 2 ^ 53 ->
  compute_pixels_per_temp self
  = Ok (SFdiv B64.prec B64.emax
              (B64.exact (graph_height self - 2 * padding self))
              (B64.exact (hi - lo))).
Proof.
  intros Hlo Hhi Hne Blo Bhi Bd Bh.
  unfold compute_pixels_per_temp, float_attr. rewrite Hhi, Hlo.
  cbn [float_of_int binary64 fsub fdiv].
  rewrite (of_int_exact hi Bhi), (of_int_exact lo Blo).
  cbn [rbind]. rewrite (SFsub_exact hi lo Bhi Blo Bd).
  replace (graph_height self - padding self * 2)
    with (graph_height self - 2 * padding self) by lia.
  rewrite (of_int_exact _ Bh). cbn [rbind].
  apply exact_nonzero; [lia | assumption].
Qed.

(** C7, as the code has it. For integers below 2^53 in magnitude, with
    [deg_max] and [deg_min] set and different, [compute_pixels_per_temp]
    returns the double-precision quotient of graph_height - 2 padding and
    deg_max - deg_min: both are converted without rounding and the
    division rounds once, which is the value of Python's
    [(graph_height - 2 * padding) / (deg_max - deg_min)].  For the range
    20..40, height 650 and padding 60 the quotient is the double 26.5. *)
Theorem pixels_per_degree_quotient (lo hi : Z) :
  deg_min self = Some lo ->
  deg_max self = Some hi ->
  hi <> lo ->
  Z.abs lo < 2 ^ 53 -> Z.abs hi < 2 ^ 53 -> Z.abs (hi - lo) < 2 ^ 53 ->
  Z.abs (graph_height self - 2 * padding self) < 2 ^ 53 ->
  let quotient :=
    SFdiv B64.prec B64.emax
          (B64.exact (graph_height self - 2 * padding self))
          (B64.exact (hi - lo)) in
  compute_pixels_per_temp self = Ok quotient /\
  num_truediv (NInt (graph_height self - 2 * padding self)) (NInt (hi - lo))
  = Ok (NFloat quotient) /\
  (lo = 20 -> hi = 40 -> graph_height self = 650 -> padding self = 60 ->
   quotient = S754_finite false 7459086882832384 (-48) /\
   B64.to_Q quotient = Some (7459086882832384 # 281474976710656) /\
   (7459086882832384 # 281474976710656 == 265 # 10)%Q).
Proof.
  intros Hlo Hhi Hne Blo Bhi Bd Bh quotient.
  split; [now apply compute_pixels_per_temp_b64 |]. split.
  - unfold num_truediv. cbn [as_float float_of_int binary64 fdiv].
    rewrite (of_int_exact _ Bh), (of_int_exact _ Bd). cbn [rbind].
    rewrite (exact_nonzero (hi - lo)) by (lia || assumption). reflexivity.
  - intros -> -> Hgh Hp. unfold quotient. rewrite Hgh, Hp.
    repeat split.
Qed.

(** C6, as the code has it. For integers below 2^53 and a series of
    other than one picture, [get_x_point] returns the double
    float(width_margin + padding)
    + float(graph_width - 2 padding) / float(N - 1) * float(i),
    computed in double precision, every operand converted without
    rounding and every operation rounded; N is the length of the whole
    series, and the history of the frame being drawn is not an argument,
    so position [i] has the same abscissa on every frame.  For 5 frames
    and the default box (width 4086, padding 60, margin 190) position 0
    is at float(250) and position 4 at float(4216). *)
Theorem x_point_double (i : Z) :
  len (image_series self) <> 1 ->
  len (image_series self) <= 2 ^ 53 ->
  Z.abs (graph_width self - 2 * padding self) < 2 ^ 53 ->
  Z.abs (graph_width_margin self + padding self) < 2 ^ 53 ->
  Z.abs i < 2 ^ 53 ->
  get_x_point self i
  = Ok (NFloat
          (SFadd B64.prec B64.emax
             (B64.exact (graph_width_margin self + padding self))
             (SFmul B64.prec B64.emax
                (SFdiv B64.prec B64.emax
                   (B64.exact (graph_width self - 2 * padding self))
                   (B64.exact (len (image_series self) - 1)))
                (B64.exact i)))) /\
  (List.length (image_series self) = 5%nat ->
   graph_width self = 4086 -> padding self = 60 ->
   graph_width_margin self = 190 ->
   get_x_point self 0 = Ok (NFloat (B64.exact 250)) /\
   get_x_point self 4 = Ok (NFloat (B64.exact 4216))).
Proof.
  intros HN BN Bw Bm Bi. split.
  - assert (BN1 : Z.abs (len (image_series self) - 1) < 2 ^ 53).
    { unfold len in *. lia. }
    unfold get_x_point.
    replace (graph_width self - padding self * 2)
      with (graph_width self - 2 * padding self) by lia.
    cbn [float_of_int binary64 fdiv].
    rewrite (of_int_exact _ Bw), (of_int_exact _ BN1). cbn [rbind].
    rewrite (exact_nonzero (len (image_series self) - 1)) by (lia || assumption).
    cbn [rbind num_mul num_add num_arith as_float float_of_int binary64
         fmul fadd].
    rewrite (of_int_exact _ Bi). cbn [rbind].
    rewrite (of_int_exact _ Bm). reflexivity.
  - intros HN5 Hgw Hp Hwm.
    unfold get_x_point, len. rewrite HN5, Hgw, Hp, Hwm.
    split; vm_compute; reflexivity.
Qed.
End GeometryFormulas.

Lemma pixels_per_degree_quotient_witness :
  let self := set_deg (@init spec_float) (Some 20) (Some 40) in
  compute_pixels_per_temp self
  = Ok (SFdiv B64.prec B64.emax (B64.exact 530) (B64.exact 20)) /\
  SFdiv B64.prec B64.emax (B64.exact 530) (B64.exact 20)
  = S754_finite false 7459086882832384 (-48).
Proof.
  intros self.
  destruct (pixels_per_degree_quotient self 20 40 eq_refl eq_refl
              ltac:(discriminate) eq_refl eq_refl eq_refl eq_refl)
    as (Hc & _ & Hv).
  split; [exact Hc |].
  exact (proj1 (Hv eq_refl eq_refl eq_refl eq_refl)).
Defined.

(** Two integers that differ but convert to the same double: the scale
    does not exist although [deg_max <> deg_min]; and a quotient that no
    double holds: the scale for the range 0..3 is not 530/3. *)
Lemma pixels_per_degree_beyond_doubles :
  2 ^ 53 + 1 <> 2 ^ 53 /\
  compute_pixels_per_temp
    (set_deg (@init spec_float) (Some (2 ^ 53)) (Some (2 ^ 53 + 1)))
  = Raise ZeroDivisionError /\
  compute_pixels_per_temp (set_deg (@init spec_float) (Some 0) (Some 3))
  = Ok (S754_finite false 6215905735693653 (-45)) /\
  B64.to_Q (S754_finite false 6215905735693653 (-45))
  = Some (6215905735693653 # 35184372088832) /\
  ~ (6215905735693653 # 35184372088832
     == inject_Z (650 - 2 * 60) / inject_Z (3 - 0))%Q.
Proof.
  split; [discriminate |]. split; [vm_compute; reflexivity |].
  split; [vm_compute; reflexivity |]. split; [reflexivity |].
  intros Heq. vm_compute in Heq. discriminate Heq.
Qed.

Lemma x_point_double_witness :
  let self := set_image_series Demo.tl (Demo.frames 5 1) in
  get_x_point self 4 = Ok (NFloat (B64.exact 4216)) /\
  get_x_point self 4
  = Ok (NFloat
          (SFadd B64.prec B64.emax (B64.exact 250)
             (SFmul B64.prec B64.emax
                (SFdiv B64.prec B64.emax (B64.exact 3966) (B64.exact 4))
                (B64.exact 4)))).
Proof.
  intros self.
  destruct (x_point_double self 4 ltac:(discriminate) ltac:(discriminate)
              eq_refl eq_refl eq_refl) as (Hgen & Hinst).
  split; [exact (proj2 (Hinst eq_refl eq_refl eq_refl eq_refl)) |].
  exact Hgen.
Defined.

(** Ten frames, position 1: the double [get_x_point] returns is not the
    value of width_margin + padding + i (graph_width - 2 padding) / (N - 1). *)
Lemma x_point_rounds :
  let self := set_image_series Demo.tl (Demo.frames 10 1) in
  get_x_point self 1 = Ok (NFloat (S754_finite false 6075168247338326 (-43)))
  /\
  B64.to_Q (S754_finite false 6075168247338326 (-43))
  = Some (6075168247338326 # 8796093022208) /\
  ~ (6075168247338326 # 8796093022208
     == inject_Z (190 + 60)
        + inject_Z 1 * inject_Z (4086 - 2 * 60) / inject_Z (10 - 1))%Q.
Proof.
  split; [vm_compute; reflexivity |]. split; [reflexivity |].
  intros Heq. vm_compute in Heq. discriminate Heq.
Qed.


(** ** What [load_images] builds *)

Section Loading.
Context {F : Type} `{PyFloat F}.
Variable w : World F.
Variable self : TimeLapse F.

Lemma order_ltb_asym a b : order_ltb a b = true -> order_ltb b a = false.
Proof.
  destruct a as [s | s], b as [t | t]; simpl; try discriminate.
  - unfold String.ltb. rewrite (String.compare_antisym t s).
    destruct (String.compare s t); simpl; congruence.
  - intros Hlt. apply negb_true_iff in Hlt. apply negb_false_iff.
    apply Qle_bool_iff.
    destruct (Qle_bool t s) eqn:E; [discriminate |].
    destruct (Qlt_le_dec s t) as [Hst | Hts].
    + now apply Qlt_le_weak.
    + apply Qle_bool_iff in Hts. congruence.
Qed.

Lemma insert_by_order_perm (x : image_record F) l :
  Permutation (insert_by_order x l) (x :: l).
Proof.
  induction l as [| y l IH]; simpl; [reflexivity |].
  destruct (order_ltb (order y) (order x)); [| reflexivity].
  rewrite IH. apply perm_swap.
Qed.

Lemma sorted_perm (l : list (image_record F)) : Permutation (sorted l) l.
Proof.
  induction l as [| x l IH]; simpl; [reflexivity |].
  rewrite insert_by_order_perm. now constructor.
Qed.

Lemma insert_by_order_Sorted (x : image_record F) l :
  Sorted in_order l -> Sorted in_order (insert_by_order x l).
Proof.
  induction 1 as [| y l Hl IH Hhd]; simpl.
  - repeat constructor.
  - destruct (order_ltb (order y) (order x)) eqn:E.
    + constructor; [exact IH |].
      destruct l as [| z l]; simpl.
      * constructor. unfold in_order. now apply order_ltb_asym.
      * destruct (order_ltb (order z) (order x)).
        -- constructor. now apply HdRel_inv in Hhd.
        -- constructor. unfold in_order. now apply order_ltb_asym.
    + constructor; [now constructor |]. constructor. exact E.
Qed.

Lemma sorted_Sorted (l : list (image_record F)) :
  Sorted in_order (sorted l).
Proof.
  induction l as [| x l IH]; simpl; [constructor |].
  now apply insert_by_order_Sorted.
Qed.

Lemma set_indices_fields (l : list (image_record F)) :
  forall start,
    map (@file_name F) (set_indices start l) = map (@file_name F) l /\
    map (@order F) (set_indices start l) = map (@order F) l /\
    map (@index F) (set_indices start l)
    = map (fun j => start + Z.of_nat j) (seq 0 (List.length l)).
Proof.
  induction l as [| x l IH]; intros start; simpl; [auto |].
  destruct (IH (start + 1)) as (Hn & Ho & Hi).
  rewrite Hn, Ho, Hi, <- seq_shift, map_map, Z.add_0_r.
  repeat split. f_equal. apply map_ext. intros j. lia.
Qed.

Lemma set_indices_Sorted (l : list (image_record F)) :
  forall start, Sorted in_order l -> Sorted in_order (set_indices start l).
Proof.
  induction l as [| x l IH]; intros start Hs; simpl; [constructor |].
  inversion Hs as [| ? ? Hl Hhd]; subst.
  constructor; [now apply IH |].
  destruct l as [| y l]; simpl; constructor.
  apply HdRel_inv in Hhd. exact Hhd.
Qed.

Lemma collect_file_names names :
  forall file_list,
    collect w self names = Ok file_list ->
    map (@file_name F) file_list
    = filter (fun name =>
                Py.endswith (Py.lower name) (valid_file_extensions self))
             names /\
    Forall (fun r => image r = None /\ temp r = None /\ temps r = None)
           file_list.
Proof.
  induction names as [| name names IH]; intros fl Hc; simpl in Hc.
  - inversion Hc. split; [reflexivity | constructor].
  - simpl. destruct (Py.endswith (Py.lower name) (valid_file_extensions self)).
    + destruct (order_of w self name) as [o |]; simpl in Hc; [| discriminate].
      destruct (collect w self names) as [fl' |]; simpl in Hc;
        [| discriminate].
      inversion Hc; subst fl. destruct (IH _ eq_refl) as [Hn Hf].
      simpl. rewrite Hn. split; [reflexivity |]. constructor; auto.
    + now apply IH.
Qed.

(** After a successful [load_images] the series holds one record for each
    listed name whose lower-cased form ends with an allowed extension,
    and no other; the records are in non-decreasing order of their
    ordering value and carry the indices 1, 2, ..., N. *)
Theorem load_images_series self' out :
  load_images w self = (self', (out, Ok tt)) ->
  exists names,
    listdir w (match images_directory self with Some d => d | None => "." end)
    = Ok names /\
    Permutation
      (map (@file_name F) (image_series self'))
      (filter (fun name =>
                 Py.endswith (Py.lower name) (valid_file_extensions self))
              names) /\
    Sorted in_order (image_series self') /\
    map (@index F) (image_series self')
    = map (fun j => Z.of_nat (S j))
          (seq 0 (List.length (image_series self'))) /\
    out = [EPrint ("Loaded " ++ Py.str (len (image_series self'))
                   ++ " files")%string].
Proof.
  unfold load_images. intros Hl.
  destruct (listdir w _) as [names |] eqn:Elist; simpl in Hl;
    [| discriminate].
  destruct (collect w self names) as [file_list |] eqn:Ecollect;
    [| discriminate].
  inversion Hl; subst self' out. clear Hl.
  cbn [image_series set_image_series set_computed].
  destruct (collect_file_names _ _ Ecollect) as [Hnames _].
  destruct (set_indices_fields (sorted file_list) 1) as (Hn & Ho & Hi).
  exists names. split; [reflexivity |]. split.
  { rewrite Hn, <- Hnames. apply Permutation_map, sorted_perm. }
  split; [apply set_indices_Sorted, sorted_Sorted |].
  split; [| reflexivity].
  rewrite Hi.
  assert (Hlen : List.length (set_indices 1 (sorted file_list))
                 = List.length (sorted file_list)).
  { rewrite <- (length_map (@file_name F)), Hn. apply length_map. }
  rewrite Hlen. apply map_ext. intros j. lia.
Qed.
End Loading.

Lemma load_images_series_witness :
  exists names,
    listdir (Demo.world Demo.photos 0) "photos" = Ok names /\
    Permutation
      (map (@file_name Demo.F)
           (image_series (fst (load_images (Demo.world Demo.photos 0) Demo.tl))))
      (filter (fun name =>
                 Py.endswith (Py.lower name) (valid_file_extensions Demo.tl))
              names).
Proof.
  destruct (load_images_series (Demo.world Demo.photos 0) Demo.tl
              (fst (load_images (Demo.world Demo.photos 0) Demo.tl))
              (fst (snd (load_images (Demo.world Demo.photos 0) Demo.tl)))
              eq_refl) as (names & Hl & Hp & _).
  exists names. split; assumption.
Defined.


(** ** A conversion that succeeds gives every picture the same temperature *)

Section ConstantTemperature.
Variable w : World spec_float.
Variable self : TimeLapse spec_float.

Lemma process_images_result schedule out series hi lo series' :
  pool_map schedule (process_image w self) (image_series self)
  = (out, Ok series) ->
  aggregate (deg_max self) (deg_min self) [] series
  = (hi, lo, series', Ok tt) ->
  snd (snd (process_images w schedule self))
  = match compute_pixels_per_temp (set_deg self lo hi) with
    | Ok _ => Ok tt
    | Raise e => Raise e
    end.
Proof.
  intros Hpool Hagg. unfold process_images. rewrite Hpool.
  cbn [image_series set_image_series set_computed deg_max deg_min].
  rewrite Hagg.
  change (compute_pixels_per_temp
            (set_image_series
               (set_deg (set_image_series self series) lo hi) series'))
    with (compute_pixels_per_temp (set_deg self lo hi)).
  destruct (compute_pixels_per_temp (set_deg self lo hi)); reflexivity.
Qed.

Lemma constant_extraction t xs ys :
  py_int (temperature_text_parser self) = Ok t ->
  mapM (outcome (process_image w self)) xs = Ok ys ->
  Forall (fun img => temp img = Some t) ys.
Proof.
  intros Hint. revert ys.
  induction xs as [| x xs IH]; intros ys Hm; simpl in Hm.
  - inversion Hm. constructor.
  - unfold outcome at 1 in Hm.
    destruct (process_image w self x) as [o [y |]] eqn:Ex;
      simpl in Hm; [| discriminate].
    destruct (mapM _ xs) as [ys' |]; simpl in Hm; [| discriminate].
    inversion Hm; subst ys. constructor; [| now apply IH].
    apply process_image_returns in Ex as (im & t' & -> & Hbranch).
    rewrite Hint in Hbranch.
    destruct Hbranch as [[Hb _] | [[Hb | Hb] _]]; try discriminate.
    inversion Hb. reflexivity.
Qed.

Lemma temperatures_constant t (series : list (image_record spec_float)) :
  Forall (fun img => temp img = Some t) series ->
  forall t', In t' (temperatures series) -> t' = t.
Proof.
  induction 1 as [| img rest Himg _ IH]; intros t' Hin; [destruct Hin |].
  rewrite (temperatures_cons _ _ _ Himg) in Hin.
  destruct Hin as [<- | Hin]; auto.
Qed.

(** When the conversion of the parser attribute succeeds, every picture
    gets the same temperature, [deg_min] and [deg_max] coincide, and
    [process_images] cannot finish: it ends in [ZeroDivisionError] once
    the pool has handed back a non-empty series (with ['temps'] and the
    extremes already stored), and never returns normally on an object
    whose extremes were [None]. *)
Theorem constant_temperature_never_completes schedule t :
  py_int (temperature_text_parser self) = Ok t ->
  Z.abs t < 2 ^ 53 ->
  Z.abs (graph_height self - 2 * padding self) < 2 ^ 53 ->
  deg_min self = None ->
  deg_max self = None ->
  snd (snd (process_images w schedule self)) <> Ok tt /\
  (forall out series,
     pool_map schedule (process_image w self) (image_series self)
     = (out, Ok series) ->
     series <> [] ->
     snd (snd (process_images w schedule self)) = Raise ZeroDivisionError /\
     deg_min (fst (process_images w schedule self)) = Some t /\
     deg_max (fst (process_images w schedule self)) = Some t).
Proof.
  intros Hint Bt Bh Hmin Hmax.
  assert (Hpooled : forall out series,
    pool_map schedule (process_image w self) (image_series self)
    = (out, Ok series) ->
    (series = [] /\
     snd (snd (process_images w schedule self)) = Raise TypeError) \/
    (series <> [] /\
     snd (snd (process_images w schedule self)) = Raise ZeroDivisionError /\
     deg_min (fst (process_images w schedule self)) = Some t /\
     deg_max (fst (process_images w schedule self)) = Some t)).
  { intros out series Hpool.
    pose proof (pool_map_inv _ _ _ _ _ Hpool) as Hm.
    pose proof (constant_extraction t _ _ Hint Hm) as Hconst.
    destruct (process_images_state w _ _ _ _ Hpool)
      as (hi & lo & series' & Hagg & _ & Hhi & Hlo).
    rewrite (process_images_result _ _ _ _ _ _ Hpool Hagg), Hhi, Hlo.
    destruct (aggregate_extrema _ _ _ _ _ _ _ _ Hagg eq_refl)
      as (Hin & _ & _ & Hhi' & Hlo').
    rewrite Hmax in Hhi'. rewrite Hmin in Hlo'.
    destruct series as [| r rest].
    - left. split; [reflexivity |].
      simpl in Hagg. inversion Hagg; subst.
      rewrite Hmin, Hmax. reflexivity.
    - right. split; [discriminate |].
      assert (Ht : In t (temperatures (r :: rest))).
      { inversion Hconst; subst.
        rewrite (temperatures_cons _ _ _ H1). now left. }
      destruct (Hin _ Ht) as (h & l & -> & -> & _).
      assert (h = t).
      { destruct Hhi' as [Hn | (t' & Ht' & E)]; [discriminate |].
        inversion E. now apply (temperatures_constant t (r :: rest)). }
      assert (l = t).
      { destruct Hlo' as [Hn | (t' & Ht' & E)]; [discriminate |].
        inversion E. now apply (temperatures_constant t (r :: rest)). }
      subst h l.
      rewrite (equal_extremes_divide_by_zero (set_deg self (Some t) (Some t))
                 t Bh Bt eq_refl eq_refl).
      auto. }
  split.
  - destruct (pool_map schedule (process_image w self) (image_series self))
      as [out [series | e]] eqn:Hpool.
    + destruct (Hpooled _ _ eq_refl) as [[_ Hr] | (_ & Hr & _)];
        rewrite Hr; discriminate.
    + unfold process_images. rewrite Hpool. simpl. discriminate.
  - intros out series Hpool Hne.
    destruct (Hpooled _ _ Hpool) as [[Hnil _] | (_ & Hr)];
      [contradiction | exact Hr].
Qed.
End ConstantTemperature.

Lemma constant_temperature_never_completes_witness :
  let w := Demo.world Demo.photos 0 in
  let self := fst (load_images w Demo.tl_int) in
  snd (snd (process_images w [1]%nat self)) = Raise ZeroDivisionError /\
  deg_min (fst (process_images w [1]%nat self)) = Some 54 /\
  deg_max (fst (process_images w [1]%nat self)) = Some 54.
Proof.
  intros w self.
  apply (proj2 (constant_temperature_never_completes w self [1]%nat 54
                  eq_refl eq_refl eq_refl eq_refl eq_refl)
               (fst (pool_map [1]%nat (process_image w self)
                              (image_series self)))
               (match snd (pool_map [1]%nat (process_image w self)
                                    (image_series self))
                with Ok s => s | Raise _ => [] end)).
  - reflexivity.
  - discriminate.
Defined.


(** ** [make_video] with a parser that is a function *)

Section FunctionParser.
Context {F : Type} `{PyFloat F}.
Variable w : World F.

Lemma process_image_function_silent (self : TimeLapse F) parse file_meta :
  temperature_text_parser self = PyFunc parse ->
  exists e, process_image w self file_meta = ([], Raise e).
Proof.
  intros Hparser. unfold process_image.
  destruct (path_join (images_directory self) (file_name file_meta))
    as [path |]; [rewrite bind_lift_Ok | eexists; reflexivity].
  destruct (image_open w path) as [im |];
    [rewrite bind_lift_Ok | eexists; reflexivity].
  destruct (image_to_string w (crop im (ocr_binding_box self))) as [text |];
    [rewrite bind_lift_Ok | eexists; reflexivity].
  rewrite Hparser. eexists. reflexivity.
Qed.

Lemma run_tasks_silent {A B} (f : A -> io F B) xs order :
  (forall x, exists e, f x = ([], Raise e)) ->
  fst (run_tasks f xs order) = [] /\
  (snd (run_tasks f xs order) = Ok [] \/
   exists e, snd (run_tasks f xs order) = Raise e).
Proof.
  intros Hf. induction order as [| i order IH]; simpl; [auto |].
  destruct (nth_error xs i) as [x |]; [| exact IH].
  destruct (Hf x) as (e & ->). simpl. eauto.
Qed.

(** With a parser attribute that is a function, as by default, and the
    extremes still [None], [make_video] with the graph never returns
    normally, writes no frame and never calls the encoder, whatever the
    directory holds; everything it emits is print output. *)
Theorem function_parser_never_encodes
        (self : TimeLapse F) parse schedule output_file :
  temperature_text_parser self = PyFunc parse ->
  deg_max self = None ->
  let run := make_video w schedule true output_file self in
  snd (snd run) <> Ok tt /\
  written (fst (snd run)) = [] /\
  (forall command, ~ In (ESystem command) (fst (snd run))) /\
  (forall ev, In ev (fst (snd run)) -> exists line, ev = EPrint line).
Proof.
  intros Hparser Hmax run.
  assert (Hshape :
    exists out e, snd run = (out, Raise e) /\
                  forall ev, In ev out -> exists line, ev = EPrint line).
  { unfold run, make_video, load_images.
    destruct (names <- listdir w _ ;; collect w self names) as [fl | e].
    2:{ exists [], e. split; [reflexivity | intros ev []]. }
    set (self1 := set_image_series self (set_indices 1 (sorted fl))).
    assert (Hp1 : temperature_text_parser self1 = PyFunc parse) by exact Hparser.
    assert (Hm1 : deg_max self1 = None) by exact Hmax.
    unfold and_then at 1. cbn [emit].
    unfold and_then at 1.
    assert (Hproc : exists e,
      process_images w schedule self1
      = (fst (process_images w schedule self1),
         ([EPrint "Beginning processing of images..."], Raise e))).
    { unfold process_images, pool_map.
      destruct (run_tasks_silent (process_image w self1) (image_series self1)
                  (completion_order (List.length (image_series self1)) schedule)
                  (fun m => process_image_function_silent self1 parse m Hp1))
        as [Hsilent Hres].
      destruct (run_tasks (process_image w self1) (image_series self1) _)
        as [o r]. simpl in Hsilent, Hres. subst o.
      destruct Hres as [-> | (e & ->)].
      - cbn [bind ret read_off app fst snd].
        destruct (image_series self1) as [| x xs] eqn:Eseries.
        + simpl. unfold compute_pixels_per_temp, float_attr.
          cbn [deg_max set_image_series set_deg set_computed].
          rewrite Hmax. eexists. reflexivity.
        + cbn [List.length seq read_off filed find option_map].
          set (rest := read_off [] _).
          assert (rest = []) as ->.
          { unfold rest. generalize (seq 1 (List.length xs)).
            intros l. induction l; simpl; auto. }
          simpl. unfold compute_pixels_per_temp, float_attr.
          cbn [deg_max set_image_series set_deg set_computed].
          rewrite Hmax. eexists. reflexivity.
      - simpl. eexists. reflexivity. }
    destruct Hproc as (e & ->).
    do 2 eexists. split; [reflexivity |].
    intros ev [<- | [<- | []]]; eauto. }
  destruct Hshape as (out & e & Hrun & Hprints).
  destruct run as [self' [out' r]]. simpl in Hrun. inversion Hrun; subst.
  cbn [fst snd]. split; [discriminate |]. split.
  - clear - Hprints. induction out as [| ev out IH]; [reflexivity |].
    destruct (Hprints ev (or_introl eq_refl)) as (line & ->). simpl.
    apply IH. intros ev' Hin. apply Hprints. now right.
  - split; [| exact Hprints].
    intros command Hin. destruct (Hprints _ Hin) as (line & Habs).
    discriminate.
Qed.
End FunctionParser.

Lemma function_parser_never_encodes_witness :
  let run := make_video (Demo.world Demo.photos 0) [] true "timelapse.mp4"
                        Demo.tl in
  snd (snd run) <> Ok tt /\
  written (fst (snd run)) = [] /\
  (forall command, ~ In (ESystem command) (fst (snd run))) /\
  (forall ev, In ev (fst (snd run)) -> exists line, ev = EPrint line).
Proof.
  apply (function_parser_never_encodes (Demo.world Demo.photos 0) Demo.tl
           parse_temperature_text [] "timelapse.mp4" eq_refl eq_refl).
Defined.


(** ** Rendering without the graph, and before extraction *)

Section PlainRendering.
Context {F : Type} `{PyFloat F}.
Variable w : World F.
Variable self : TimeLapse F.

(** Without the graph, [render_images] only copies: when every path can
    be read and written, the call returns normally, leaves the object as
    it was, and its [k]-th effect copies the source file of the [k]-th
    record to the frame name of index [k]; nothing is drawn and nothing
    else happens. *)
Theorem plain_rendering_copies idir sdir :
  images_directory self = Some idir ->
  save_directory self = Some sdir ->
  (forall path, readable w path = true) ->
  (forall path, writable w path = true) ->
  exists copies,
    render_images w false self = (self, (copies, Ok tt)) /\
    List.length copies = List.length (image_series self) /\
    forall k r, nth_error (image_series self) k = Some r ->
      exists src dst,
        path_join (Some idir) (file_name r) = Ok src /\
        path_join (Some sdir)
                  (new_filename (Z.of_nat (S k)) (max_digits self)) = Ok dst /\
        nth_error copies k = Some (ECopy src dst).
Proof. apply render_images_plain. Qed.

(** The records [load_images] builds have no ['image'] yet: rendering
    with the graph before [process_images] has run fails on the first
    record with [KeyError], before anything is written. *)
Theorem graph_rendering_needs_extraction self0 out :
  load_images w self0 = (self, (out, Ok tt)) ->
  image_series self <> [] ->
  snd (render_images w true self)
  = ([EPrint "Generating graphs on all frames..."], Raise KeyError) /\
  image_series (fst (render_images w true self)) = image_series self.
Proof.
  intros Hload Hne.
  assert (Hnone : Forall (fun r : image_record F => image r = None)
                         (image_series self)).
  { unfold load_images in Hload.
    destruct (listdir w _) as [names |]; simpl in Hload; [| discriminate].
    destruct (collect w self0 names) as [fl |] eqn:Ec; [| discriminate].
    inversion Hload; subst. cbn [image_series set_image_series set_computed].
    destruct (collect_file_names w self0 _ _ Ec) as [_ Hfl].
    assert (Hs : Forall (fun r : image_record F => image r = None) (sorted fl)).
    { apply Forall_forall. intros r Hr.
      apply (Permutation_in _ (sorted_perm fl)) in Hr.
      apply (proj1 (Forall_forall _ _) Hfl) in Hr. tauto. }
    clear - Hs. generalize 1 as start.
    induction Hs as [| r l Hr _ IH]; intros start; simpl; constructor; auto. }
  unfold render_images.
  destruct (image_series self) as [| r rest] eqn:Es; [contradiction |].
  inversion Hnone as [| ? ? Hr _]; subst.
  cbn [render_graphs]. unfold draw_graph. rewrite Hr. cbn [getitem rbind].
  cbn [lift fst snd image_series set_image_series set_computed]. auto.
Qed.
End PlainRendering.

Lemma plain_rendering_copies_witness :
  let w := Demo.world Demo.photos 0 in
  let self := fst (load_images w Demo.tl) in
  exists copies,
    render_images w false self = (self, (copies, Ok tt)) /\
    List.length copies = 3%nat /\
    nth_error copies 1
    = Some (ECopy "photos/b.jpg" "save/TIMELAPSE2.JPG").
Proof.
  intros w self.
  destruct (plain_rendering_copies w self "photos" "save" eq_refl eq_refl
              (fun _ => eq_refl) (fun _ => eq_refl))
    as (copies & Hrun & Hlen & Hnth).
  exists copies. split; [exact Hrun |]. split; [exact Hlen |].
  destruct (Hnth 1%nat (Demo.loaded "b.jpg" 2) eq_refl)
    as (src & dst & Hs & Hd & Hk).
  inversion Hs. inversion Hd. subst. exact Hk.
Defined.

Lemma graph_rendering_needs_extraction_witness :
  let w := Demo.world Demo.photos 0 in
  let self := fst (load_images w Demo.tl) in
  snd (render_images w true self)
  = ([EPrint "Generating graphs on all frames..."], Raise KeyError) /\
  image_series (fst (render_images w true self)) = image_series self.
Proof.
  intros w self.
  apply (graph_rendering_needs_extraction w self Demo.tl
           (fst (snd (load_images w Demo.tl))) eq_refl).
  discriminate.
Defined.


(** ** Failed extractions and extremes left from an earlier run *)

Section ExtractionEdges.
Context {F : Type} `{PyFloat F}.
Variable w : World F.
Variable self : TimeLapse F.

(** Extraction is all or nothing: if [process_image] raises for one
    picture of the series, [process_images] raises, whatever the order of
    completion, and the object is left exactly as it was, without any of
    the results of the pictures that succeeded. *)
Theorem failed_extraction_changes_nothing schedule file_meta e :
  In file_meta (image_series self) ->
  snd (process_image w self file_meta) = Raise e ->
  fst (process_images w schedule self) = self /\
  exists e', snd (snd (process_images w schedule self)) = Raise e'.
Proof.
  intros Hin Hfail.
  assert (Hm : exists e0,
    mapM (outcome (process_image w self)) (image_series self) = Raise e0).
  { clear - Hin Hfail. induction (image_series self) as [| x xs IH];
      [destruct Hin |].
    simpl. destruct Hin as [-> | Hin].
    - unfold outcome at 1. rewrite Hfail. simpl. eauto.
    - destruct (outcome (process_image w self) x); simpl; [| eauto].
      destruct (IH Hin) as (e0 & ->). simpl. eauto. }
  destruct Hm as (e0 & Hm).
  destruct (pool_map_raise (process_image w self) schedule _ _ Hm)
    as (out & e' & Hpool).
  unfold process_images. rewrite Hpool. simpl. eauto.
Qed.

(** [process_images] does not reset the extremes: it only widens them.
    On an object that already holds [deg_min] and [deg_max], from an
    earlier run or from the constructor, a series whose temperatures all
    lie between the two leaves both as they were. *)
Theorem extremes_are_not_reset schedule out series lo hi :
  deg_min self = Some lo ->
  deg_max self = Some hi ->
  pool_map schedule (process_image w self) (image_series self)
  = (out, Ok series) ->
  (forall t, In t (temperatures series) -> lo <= t <= hi) ->
  deg_min (fst (process_images w schedule self)) = Some lo /\
  deg_max (fst (process_images w schedule self)) = Some hi.
Proof.
  intros Hlo Hhi Hpool Hin.
  destruct (process_images_state w _ _ _ _ Hpool)
    as (hi' & lo' & series' & Hagg & _ & -> & ->).
  destruct (aggregate_extrema _ _ _ _ _ _ _ _ Hagg eq_refl)
    as (_ & Hmax & Hmin & Hhi' & Hlo').
  destruct (Hmax _ Hhi) as (h & -> & Hh).
  destruct (Hmin _ Hlo) as (l & -> & Hl).
  rewrite Hhi in Hhi'. rewrite Hlo in Hlo'.
  split.
  - destruct Hlo' as [E | (t & Ht & E)]; [exact E |].
    inversion E; subst. f_equal. specialize (Hin _ Ht). lia.
  - destruct Hhi' as [E | (t & Ht & E)]; [exact E |].
    inversion E; subst. f_equal. specialize (Hin _ Ht). lia.
Qed.
End ExtractionEdges.

Lemma failed_extraction_changes_nothing_witness :
  let w := Demo.world ("d.png" :: Demo.photos) 0 in
  let self := fst (load_images w Demo.tl_str) in
  fst (process_images w [3; 1]%nat self) = self /\
  exists e', snd (snd (process_images w [3; 1]%nat self)) = Raise e'.
Proof.
  intros w self.
  apply (failed_extraction_changes_nothing w self [3; 1]%nat
           (Demo.loaded "d.png" 4) ValueError).
  - do 3 right. left. reflexivity.
  - reflexivity.
Defined.

Lemma extremes_are_not_reset_witness :
  let w := Demo.world Demo.photos 0 in
  let self := set_deg (fst (load_images w Demo.tl_str)) (Some 0) (Some 100) in
  deg_min (fst (process_images w [2]%nat self)) = Some 0 /\
  deg_max (fst (process_images w [2]%nat self)) = Some 100.
Proof.
  intros w self.
  apply (extremes_are_not_reset w self [2]%nat
           (fst (pool_map [2]%nat (process_image w self) (image_series self)))
           (match snd (pool_map [2]%nat (process_image w self)
                                (image_series self))
            with Ok s => s | Raise _ => [] end)
           0 100 eq_refl eq_refl eq_refl).
  intros t Ht. vm_compute in Ht.
  destruct Ht as [<- | [<- | [<- | []]]]; lia.
Defined.


(** ** What [draw_grid] and [add_temps] draw *)

Section Drawing.
Context {F : Type} `{PyFloat F}.
Variable w : World F.
Variable self : TimeLapse F.

Lemma draw_ticks_drawn n :
  forall current_deg img img',
    draw_ticks self n current_deg img = Ok img' ->
    exists ticks,
      im_drawn img' = im_drawn img ++ ticks /\
      Forall (is_line 2) ticks /\
      List.length ticks
      = List.length (filter (fun d => d mod 10 =? 0)
                            (map (fun j => current_deg + Z.of_nat j)
                                 (seq 0 n))).
Proof.
  induction n as [| n IH]; intros c img img' Hd; cbn [draw_ticks] in Hd.
  - inversion Hd; subst. exists []. rewrite app_nil_r.
    repeat split. constructor.
  - cbn [seq map filter]. rewrite Z.add_0_r.
    rewrite <- seq_shift, map_map.
    assert (Hshift : map (fun j => c + Z.of_nat (S j)) (seq 0 n)
                     = map (fun j => c + 1 + Z.of_nat j) (seq 0 n)).
    { apply map_ext. intros j. lia. }
    rewrite Hshift.
    destruct (c mod 10 =? 0).
    + destruct (get_temp_y_point self c) as [y |]; [| discriminate].
      cbn [rbind] in Hd.
      destruct (num_truediv _ _) as [half |]; [| discriminate].
      cbn [rbind] in Hd.
      destruct (num_sub _ half) as [x0 |]; [| discriminate].
      cbn [rbind] in Hd.
      destruct (num_add _ half) as [x1 |]; [| discriminate].
      cbn [rbind] in Hd.
      destruct (IH _ _ _ Hd) as (ticks & Hdrawn & Hlines & Hlen).
      exists (Line [x0; y; x1; y] (tick_color self) 2 :: ticks).
      rewrite Hdrawn. cbn [draw im_drawn]. rewrite <- app_assoc.
      split; [reflexivity |]. split.
      * constructor; [do 2 eexists; reflexivity | assumption].
      * simpl. now rewrite Hlen.
    + cbn [rbind] in Hd. apply (IH _ _ _ Hd).
Qed.

(** What [draw_grid] adds to a picture, in order: the two axes, one tick
    of width 2 for each multiple of ten from [deg_min] to [deg_max], the
    freezing line of width 1 at 32 degrees exactly when 32 lies between
    the extremes, and the two labels, [deg_min] then [deg_max], each
    followed by a degree sign. *)
Theorem draw_grid_drawn image img' lo hi :
  deg_min self = Some lo ->
  deg_max self = Some hi ->
  draw_grid w self image = Ok img' ->
  let x0 := graph_width_margin self + padding self in
  let x1 := graph_width_margin self + graph_width self - padding self in
  let y0 := graph_height_margin self + graph_height self - padding self in
  exists ticks freezing at_min at_max,
    im_drawn img'
    = im_drawn image
      ++ [Line [NInt x0; NInt y0; NInt x0;
                NInt (graph_height_margin self + padding self)]
               (grid_color self) 2;
          Line [NInt x0; NInt y0; NInt x1; NInt y0] (grid_color self) 2]
      ++ ticks ++ freezing
      ++ [Text at_min (Py.str lo ++ "°")%string (graph_label_font self) 40
               (grid_color self);
          Text at_max (Py.str hi ++ "°")%string (graph_label_font self) 40
               (grid_color self)] /\
    Forall (is_line 2) ticks /\
    List.length ticks = List.length (tick_degrees lo hi) /\
    (lo <= 32 <= hi ->
     exists y, get_temp_y_point self 32 = Ok y /\
               freezing = [Line [NInt x0; y; NInt x1; y]
                                (freezing_line_color self) 1]) /\
    (~ lo <= 32 <= hi -> freezing = []).
Proof.
  intros Hlo Hhi Hd x0 x1 y0. unfold draw_grid in Hd.
  rewrite Hlo, Hhi in Hd. cbn [rbind] in Hd. fold x0 x1 y0 in Hd.
  destruct (draw_ticks self _ lo _) as [img1 |] eqn:Eticks; [| discriminate].
  cbn [rbind] in Hd.
  destruct (draw_ticks_drawn _ _ _ _ Eticks) as (ticks & Hdrawn1 & Hlines & Hlen).
  cbn [draw im_drawn] in Hdrawn1.
  assert (Hfreeze : exists img2 freezing,
    (if (lo <=? 32) && (32 <=? hi)
     then freezing_line <- get_temp_y_point self 32 ;;
          Ok (draw img1 (Line [NInt x0; freezing_line; NInt x1; freezing_line]
                              (freezing_line_color self) 1))
     else Ok img1) = Ok img2 /\
    im_drawn img2 = im_drawn img1 ++ freezing /\
    (lo <= 32 <= hi ->
     exists y, get_temp_y_point self 32 = Ok y /\
               freezing = [Line [NInt x0; y; NInt x1; y]
                                (freezing_line_color self) 1]) /\
    (~ lo <= 32 <= hi -> freezing = [])).
  { destruct ((lo <=? 32) && (32 <=? hi)) eqn:Ein.
    - apply andb_true_iff in Ein as [E1 E2].
      apply Z.leb_le in E1. apply Z.leb_le in E2.
      destruct (get_temp_y_point self 32) as [y |]; [| discriminate].
      do 2 eexists. split; [reflexivity |]. split; [reflexivity |].
      split; [eauto | intros Hn; lia].
    - exists img1, []. split; [reflexivity |].
      split; [now rewrite app_nil_r |].
      split; [| reflexivity].
      intros [E1 E2]. apply Z.leb_le in E1. apply Z.leb_le in E2.
      rewrite E1, E2 in Ein. discriminate. }
  destruct Hfreeze as (img2 & freezing & Eif & Hdrawn2 & Hin & Hout).
  rewrite Eif in Hd. cbn [rbind] in Hd.
  destruct (font_found w (graph_label_font self)); [| discriminate].
  cbn [rbind] in Hd.
  destruct (num_truediv _ _) as [half |]; [| discriminate].
  cbn [rbind] in Hd.
  destruct (num_sub (NInt (graph_height_margin self + graph_height self)) half)
    as [t1 |]; [| discriminate].
  cbn [rbind] in Hd.
  destruct (num_sub t1 (NInt 20)) as [ylo |]; [| discriminate].
  cbn [rbind] in Hd.
  destruct (num_add (NInt (graph_height_margin self)) half)
    as [t2 |]; [| discriminate].
  cbn [rbind] in Hd.
  destruct (num_sub t2 (NInt 20)) as [yhi |]; [| discriminate].
  cbn [rbind] in Hd. inversion Hd; subst img'. clear Hd.
  exists ticks, freezing,
    [NInt (graph_width_margin self + 20); ylo],
    [NInt (graph_width_margin self + 20); yhi].
  split.
  { cbn [draw im_drawn]. rewrite Hdrawn2, Hdrawn1.
    rewrite <- !app_assoc. reflexivity. }
  unfold tick_degrees. auto.
Qed.

Lemma segments_length (points : list (num F * num F)) :
  forall p, List.length (segments (Some p) points) = List.length points.
Proof.
  induction points as [| [x y] rest IH]; intros [lx ly]; simpl;
    [reflexivity |].
  now rewrite IH.
Qed.

Lemma add_temps_loop_drawn points :
  truthy (plot_point_size self) = false ->
  forall index last img img',
    add_temps_loop self points index last img = Ok img' ->
    exists xys,
      List.length xys = List.length points /\
      (forall j t, nth_error points j = Some t ->
         exists x y,
           get_x_point self (index + Z.of_nat j) = Ok x /\
           get_temp_y_point self t = Ok y /\
           nth_error xys j = Some (x, y)) /\
      im_drawn img' = im_drawn img ++ segments last xys.
Proof.
  intros Hplain.
  induction points as [| point rest IH]; intros index last img img' Ha;
    cbn [add_temps_loop] in Ha.
  - inversion Ha; subst. exists []. rewrite app_nil_r.
    repeat split. intros [| j] t; discriminate.
  - destruct (get_temp_y_point self point) as [y |] eqn:Ey; [| discriminate].
    cbn [rbind] in Ha.
    destruct (get_x_point self index) as [x |] eqn:Ex; [| discriminate].
    cbn [rbind] in Ha. rewrite Hplain in Ha. cbn [rbind] in Ha.
    destruct (IH _ _ _ _ Ha) as (xys & Hlen & Hnth & Hdrawn).
    exists ((x, y) :: xys). split; [simpl; now rewrite Hlen |]. split.
    + intros [| j] t Ht; simpl in Ht.
      * inversion Ht; subst t. exists x, y.
        rewrite Z.add_0_r. auto.
      * destruct (Hnth _ _ Ht) as (x' & y' & Hx' & Hy' & Hj).
        exists x', y'. split; [| auto].
        rewrite <- Hx'. f_equal. lia.
    + rewrite Hdrawn. cbn [segments].
      destruct last as [[lx ly] |]; cbn [draw im_drawn];
        rewrite <- ?app_assoc; reflexivity.
Qed.

(** Without a marker size, [add_temps] draws the connecting line and
    nothing else: one white segment of width 2 between each point of the
    history and the next, the point at position [j] at the abscissa
    [get_x_point j] and the ordinate of its temperature; a history of one
    temperature adds nothing to the picture. *)
Theorem add_temps_polyline image_obj img temperature_points img' :
  image image_obj = Some img ->
  truthy (plot_point_size self) = false ->
  add_temps self image_obj temperature_points = Ok img' ->
  exists xys,
    List.length xys = List.length temperature_points /\
    (forall j t, nth_error temperature_points j = Some t ->
       exists x y,
         get_x_point self (Z.of_nat j) = Ok x /\
         get_temp_y_point self t = Ok y /\
         nth_error xys j = Some (x, y)) /\
    im_drawn img' = im_drawn img ++ segments None xys /\
    List.length (segments None xys)
    = (List.length temperature_points - 1)%nat.
Proof.
  intros Himg Hplain Ha. unfold add_temps in Ha. rewrite Himg in Ha.
  cbn [getitem rbind] in Ha.
  destruct (add_temps_loop_drawn _ Hplain _ _ _ _ Ha)
    as (xys & Hlen & Hnth & Hdrawn).
  exists xys. split; [exact Hlen |]. split; [exact Hnth |].
  split; [exact Hdrawn |].
  rewrite <- Hlen. destruct xys as [| [x y] rest]; [reflexivity |].
  cbn [segments app List.length]. rewrite segments_length. lia.
Qed.
End Drawing.


Lemma draw_grid_drawn_witness :
  let w := Demo.world Demo.photos 0 in
  exists img' (ticks freezing : list (draw_op Demo.F)),
    draw_grid w Demo.plotted Demo.blank = Ok img' /\
    List.length (im_drawn img') = (2 + 3 + 1 + 2)%nat /\
    List.length ticks = 3%nat /\
    Forall (is_line 2) ticks /\
    exists y, get_temp_y_point Demo.plotted 32 = Ok y /\
              freezing = [Line [NInt 250; y; NInt 4216; y]
                               (RGBA 29 214 255 255) 1].
Proof.
  intros w.
  set (img' := match draw_grid w Demo.plotted Demo.blank with
               | Ok i => i
               | Raise _ => Demo.blank
               end).
  assert (Hd : draw_grid w Demo.plotted Demo.blank = Ok img')
    by (vm_compute; reflexivity).
  destruct (draw_grid_drawn w Demo.plotted Demo.blank img' 20 40
              eq_refl eq_refl Hd)
    as (ticks & freezing & at_min & at_max & Hdrawn & Hlines & Hlen & Hin & _).
  exists img', ticks, freezing.
  split; [exact Hd |]. split; [vm_compute; reflexivity |].
  split; [exact Hlen |]. split; [exact Hlines |].
  apply Hin. lia.
Defined.

Lemma add_temps_polyline_witness :
  exists img' xys,
    add_temps Demo.plotted Demo.third_frame [20; 30; 40] = Ok img' /\
    List.length xys = 3%nat /\
    im_drawn img' = segments None xys /\
    List.length (segments None xys) = 2%nat.
Proof.
  set (img' := match add_temps Demo.plotted Demo.third_frame [20; 30; 40] with
               | Ok i => i
               | Raise _ => Demo.blank
               end).
  assert (Ha : add_temps Demo.plotted Demo.third_frame [20; 30; 40] = Ok img')
    by (vm_compute; reflexivity).
  destruct (add_temps_polyline Demo.plotted Demo.third_frame Demo.blank
              [20; 30; 40] img' eq_refl eq_refl Ha)
    as (xys & Hlen & _ & Hdrawn & Hsegs).
  exists img', xys. split; [exact Ha |]. auto.
Defined.


(** ** The default parser *)

Section DefaultParser.

Lemma append_empty_r (s : string) : (s ++ "")%string = s.
Proof. induction s; simpl; congruence. Qed.

Lemma split_go_without_separator sep s :
  forall fuel cur,
    Py.contains sep s = false ->
    (String.length s < fuel)%nat ->
    Py.split_go fuel sep s cur = [(cur ++ s)%string].
Proof.
  induction s as [| c s IH]; intros fuel cur Hno Hfuel;
    (destruct fuel as [| fuel]; [simpl in Hfuel; lia |]).
  - simpl. now rewrite append_empty_r.
  - cbn [Py.contains] in Hno. apply orb_false_iff in Hno as [Hp Hrest].
    cbn [Py.split_go]. rewrite Hp.
    rewrite IH by (simpl in Hfuel; auto; lia).
    now rewrite string_append_assoc.
Qed.

(** A text without a degree sign has no second reading:
    [parse_temperature_text] raises [IndexError], the failure the handler
    of [process_image] is written for. *)
Theorem parse_without_degree_sign (input_text : string) :
  Py.contains "°" input_text = false ->
  parse_temperature_text input_text = Raise IndexError.
Proof.
  intros Hno. unfold parse_temperature_text, Py.split.
  rewrite (split_go_without_separator _ _ _ _ Hno) by lia.
  reflexivity.
Qed.

Lemma prefix_append (sep rest : string) : prefix sep (sep ++ rest) = true.
Proof.
  induction sep as [| c sep IH]; simpl; [now destruct rest |].
  destruct (ascii_dec c c); [exact IH | contradiction].
Qed.

Lemma substring_after (sep rest : string) :
  substring (String.length sep)
            (String.length (sep ++ rest) - String.length sep) (sep ++ rest)
  = rest.
Proof.
  induction sep as [| c sep IH]; simpl.
  - rewrite Nat.sub_0_r. induction rest as [| d rest IHr]; simpl;
      [reflexivity |]. now rewrite IHr.
  - exact IH.
Qed.

Lemma substring_length n m (s : string) :
  (String.length (substring n m s) <= m)%nat.
Proof.
  revert n m. induction s as [| c s IH]; intros [| n] [| m]; simpl;
    try lia; try apply IH.
  specialize (IH 0%nat m). lia.
Qed.

(** Enough fuel is as good as more. *)
Lemma split_go_fuel sep :
  sep <> EmptyString ->
  forall fuel1 fuel2 s cur,
    (String.length s < fuel1)%nat -> (String.length s < fuel2)%nat ->
    Py.split_go fuel1 sep s cur = Py.split_go fuel2 sep s cur.
Proof.
  intros Hsep. assert (Hlen : (1 <= String.length sep)%nat)
    by (destruct sep; [contradiction | simpl; lia]).
  induction fuel1 as [| fuel1 IH]; intros fuel2 s cur H1 H2; [lia |].
  destruct fuel2 as [| fuel2]; [lia |].
  cbn [Py.split_go]. destruct s as [| c s]; [reflexivity |].
  destruct (prefix sep (String c s)).
  - f_equal.
    pose proof (substring_length (String.length sep)
                  (String.length (String c s) - String.length sep)
                  (String c s)) as Hsub.
    assert (Hs : String.length (String c s) = S (String.length s))
      by reflexivity.
    apply IH; lia.
  - cbn [String.length] in H1, H2. apply IH; lia.
Qed.

(** The first field ends at the first place where the separator matches. *)
Lemma split_go_first sep rest :
  sep <> EmptyString ->
  forall a fuel cur,
    (forall x y, a = (x ++ y)%string -> y <> EmptyString ->
                 prefix sep (y ++ sep ++ rest) = false) ->
    (String.length (a ++ sep ++ rest) < fuel)%nat ->
    Py.split_go fuel sep (a ++ sep ++ rest) cur
    = (cur ++ a)%string :: Py.split rest sep.
Proof.
  intros Hsep. assert (Hlen : (1 <= String.length sep)%nat)
    by (destruct sep; [contradiction | simpl; lia]).
  induction a as [| c a IH]; intros fuel cur Hfirst Hfuel;
    (destruct fuel as [| fuel]; [lia |]).
  - cbn [append] in *. cbn [Py.split_go].
    destruct (sep ++ rest)%string as [| d t] eqn:Es.
    { destruct sep; [contradiction | discriminate]. }
    rewrite <- Es, prefix_append, substring_after, append_empty_r.
    f_equal. unfold Py.split. apply split_go_fuel; [assumption | | lia].
    rewrite <- Es, string_length_app in Hfuel. lia.
  - cbn [append Py.split_go].
    pose proof (Hfirst EmptyString (String c a) eq_refl ltac:(discriminate))
      as Hp.
    cbn [append] in Hp. rewrite Hp. rewrite IH.
    + now rewrite string_append_assoc.
    + intros x y -> Hy. apply (Hfirst (String c x) y eq_refl Hy).
    + simpl in Hfuel. lia.
Qed.

Lemma degree_sign_first (a tail : string) :
  Py.contains "°" a = false ->
  forall x y, a = (x ++ y)%string -> y <> EmptyString ->
              prefix "°" (y ++ "°" ++ tail) = false.
Proof.
  intros Hno x y -> Hy.
  assert (Hy' : Py.contains "°" y = false).
  { clear Hy. induction x as [| c x IH]; [exact Hno |].
    cbn [append Py.contains] in Hno. apply orb_false_iff in Hno as [_ Hno].
    auto. }
  clear Hno. destruct y as [| c [| d y]]; [contradiction | |].
  - cbn [append]. cbn [prefix].
    destruct (ascii_dec _ c); [| reflexivity].
    destruct (ascii_dec _ _); [discriminate | reflexivity].
  - cbn [Py.contains] in Hy'. apply orb_false_iff in Hy' as [Hp _].
    cbn [append]. cbn [prefix] in *.
    destruct (ascii_dec _ c); [| reflexivity].
    destruct (ascii_dec _ d); [| reflexivity].
    destruct y; discriminate.
Qed.

(** On a footer that reads [... a° r°...], where neither what precedes
    the first degree sign nor the reading [r] holds a degree sign, and
    [r] holds no space, [parse_temperature_text] returns [r]: the
    second reading without its leading space. *)
Theorem parse_second_reading (a r c : string) :
  Py.contains "°" a = false ->
  Py.contains "°" r = false ->
  Py.contains " " r = false ->
  parse_temperature_text (a ++ "°" ++ " " ++ r ++ "°" ++ c) = Ok r.
Proof.
  intros Ha Hr Hspace. unfold parse_temperature_text, Py.split.
  rewrite (split_go_first "°" ((" " ++ r) ++ "°" ++ c));
    [| discriminate | now apply degree_sign_first | simpl; lia].
  unfold Py.split.
  rewrite (split_go_first "°" c); [| discriminate | | lia].
  2:{ apply degree_sign_first. cbn [append Py.contains].
      apply orb_false_iff. split; [| exact Hr].
      destruct r as [| d [| e r']]; reflexivity. }
  cbn [Py.index nth_error rbind append].
  change (String " " r) with ("" ++ " " ++ r)%string.
  rewrite (split_go_first " " r); [| discriminate | | simpl; lia].
  2:{ intros x y Hxy Hy. destruct x; destruct y; try discriminate.
      contradiction. }
  unfold Py.split.
  rewrite (split_go_without_separator _ _ _ _ Hspace) by lia.
  reflexivity.
Qed.
End DefaultParser.

Lemma parse_second_reading_witness :
  parse_temperature_text "2019-01-05 10:00:00 12° 54° F" = Ok "54".
Proof.
  apply (parse_second_reading "2019-01-05 10:00:00 12" "54" " F"
           eq_refl eq_refl eq_refl).
Defined.

Lemma parse_without_degree_sign_witness :
  parse_temperature_text "2019-01-05 10:00:00" = Raise IndexError.
Proof.
  apply (parse_without_degree_sign "2019-01-05 10:00:00" eq_refl).
Defined.


(** ** What a full run stores, and a run without the graph *)

Section FullRuns.
Context {F : Type} `{PyFloat F}.
Variable w : World F.

(** After a run of [process_images] that returns normally the computed
    attributes agree with one another: [total_frames] is the length of
    the series, which is that of the series before, and
    [pixels_per_degree] is the scale [compute_pixels_per_temp] gives for
    the extremes now stored. *)
Theorem process_images_stores_scale schedule self self' out :
  process_images w schedule self = (self', (out, Ok tt)) ->
  total_frames self' = len (image_series self') /\
  List.length (image_series self') = List.length (image_series self) /\
  exists ppd,
    compute_pixels_per_temp self' = Ok ppd /\
    pixels_per_degree self' = NFloat ppd.
Proof.
  intros Hrun.
  destruct (pool_map schedule (process_image w self) (image_series self))
    as [o [series | e]] eqn:Hpool.
  2:{ unfold process_images in Hrun. rewrite Hpool in Hrun. inversion Hrun. }
  pose proof (pool_map_inv _ _ _ _ _ Hpool) as Hm.
  destruct (aggregate_history series (extraction_has_temps _ _ _ _ Hm)
              (deg_max self) (deg_min self) [])
    as (hi & lo & series' & Hagg & Hlen & _).
  assert (Hlen0 : List.length series = List.length (image_series self))
    by (apply mapM_nth in Hm; tauto).
  unfold process_images in Hrun. rewrite Hpool in Hrun.
  cbn [image_series set_image_series set_computed deg_max deg_min] in Hrun.
  rewrite Hagg in Hrun.
  destruct (compute_pixels_per_temp _) as [ppd |] eqn:Eppd;
    [| inversion Hrun].
  inversion Hrun; subst self'. clear Hrun.
  cbn [total_frames image_series pixels_per_degree set_total_frames
       set_pixels_per_degree set_image_series set_deg set_computed].
  split; [reflexivity |]. split; [congruence |].
  exists ppd. split; [exact Eppd | reflexivity].
Qed.

Lemma render_video_shape self save_as dir :
  save_directory self = Some dir ->
  exists command,
    ffmpeg_command self save_as = Ok command /\
    render_video w save_as self
    = ([EPrint "Calling ffmpeg..."; ESystem command; EPrint "Done."], Ok tt).
Proof.
  intros Hdir. unfold render_video, ffmpeg_command. rewrite Hdir.
  eexists. split; reflexivity.
Qed.

(** Without the graph [make_video] needs neither OCR nor the parser: with
    both directories set, ordering by name, a directory that can be
    listed and files that can be read and written, it returns normally
    whatever the parser attribute holds; it reports the count, copies
    each picture once to the frame of its index, then calls the encoder
    once and prints "Done."; the extremes are left untouched. *)
Theorem plain_video_succeeds schedule output_file self idir sdir names :
  images_directory self = Some idir ->
  save_directory self = Some sdir ->
  tl_order self = ORDER_NAME ->
  listdir w idir = Ok names ->
  (forall path, readable w path = true) ->
  (forall path, writable w path = true) ->
  let run := make_video w schedule false output_file self in
  exists copies command,
    ffmpeg_command (fst run) output_file = Ok command /\
    snd run
    = (EPrint ("Loaded " ++ Py.str (len (image_series (fst run)))
               ++ " files")%string
       :: copies
       ++ [EPrint "Calling ffmpeg..."; ESystem command; EPrint "Done."],
       Ok tt) /\
    List.length copies = List.length (image_series (fst run)) /\
    (forall k r, nth_error (image_series (fst run)) k = Some r ->
       exists src dst,
         path_join (Some idir) (file_name r) = Ok src /\
         path_join (Some sdir)
                   (new_filename (Z.of_nat (S k)) (max_digits (fst run)))
         = Ok dst /\
         nth_error copies k = Some (ECopy src dst)) /\
    deg_min (fst run) = deg_min self /\
    deg_max (fst run) = deg_max self.
Proof.
  intros Hidir Hsdir Horder Hlist Hread Hwrite run.
  assert (Hcollect : exists fl, collect w self names = Ok fl).
  { clear - Horder. induction names as [| name rest IH]; simpl; [eauto |].
    destruct IH as (fl & ->).
    destruct (Py.endswith _ _); [| eauto].
    unfold order_of. rewrite Horder. simpl. eauto. }
  destruct Hcollect as (fl & Hfl).
  set (self1 := set_image_series self (set_indices 1 (sorted fl))).
  assert (Hload : load_images w self
                  = (self1, ([EPrint ("Loaded " ++ Py.str (len (image_series self1))
                                      ++ " files")%string], Ok tt))).
  { unfold load_images. rewrite Hidir, Hlist. cbn [rbind]. rewrite Hfl.
    reflexivity. }
  destruct (render_images_plain w self1 idir sdir Hidir Hsdir Hread Hwrite)
    as (copies & Hrender & Hlen & Hnth).
  destruct (render_video_shape self1 output_file sdir Hsdir)
    as (command & Hcmd & Hvideo).
  assert (Hrun : run = (self1,
    (EPrint ("Loaded " ++ Py.str (len (image_series self1)) ++ " files")%string
     :: copies
     ++ [EPrint "Calling ffmpeg..."; ESystem command; EPrint "Done."],
     Ok tt))).
  { unfold run, make_video. rewrite Hload. unfold and_then at 1.
    unfold and_then at 1. cbn [ret]. unfold and_then at 1.
    rewrite Hrender, Hvideo. reflexivity. }
  rewrite Hrun. cbn [fst snd].
  exists copies, command. split; [exact Hcmd |]. split; [reflexivity |].
  split; [exact Hlen |]. split; [exact Hnth |]. split; reflexivity.
Qed.
End FullRuns.

Lemma process_images_stores_scale_witness :
  let w := Demo.world Demo.photos 0 in
  let self := fst (load_images w Demo.tl_str) in
  let self' := fst (process_images w [2; 1]%nat self) in
  total_frames self' = 3 /\
  List.length (image_series self') = 3%nat /\
  exists ppd,
    compute_pixels_per_temp self' = Ok ppd /\
    pixels_per_degree self' = NFloat ppd.
Proof.
  intros w self self'.
  apply (process_images_stores_scale w [2; 1]%nat self self'
           (fst (snd (process_images w [2; 1]%nat self)))).
  vm_compute. reflexivity.
Defined.

Lemma plain_video_succeeds_witness :
  let run := make_video (Demo.world Demo.photos 0) [] false "timelapse.mp4"
                        Demo.tl in
  exists copies command,
    ffmpeg_command (fst run) "timelapse.mp4" = Ok command /\
    snd run
    = (EPrint ("Loaded " ++ Py.str (len (image_series (fst run)))
               ++ " files")%string
       :: copies
       ++ [EPrint "Calling ffmpeg..."; ESystem command; EPrint "Done."],
       Ok tt) /\
    List.length copies = List.length (image_series (fst run)).
Proof.
  intros run.
  destruct (plain_video_succeeds (Demo.world Demo.photos 0) [] "timelapse.mp4"
              Demo.tl "photos" "save" Demo.photos eq_refl eq_refl eq_refl
              eq_refl (fun _ => eq_refl) (fun _ => eq_refl))
    as (copies & command & Hc & Hs & Hl & _).
  exists copies, command. auto.
Defined.
